(** * Hybrid rank fusion of [voyage_hybrid_query.py]

    The script builds one MongoDB aggregation pipeline: a vector search and
    a text search over the same collection, each turned into a ranked list,
    scored by reciprocal rank with an additive priority, united, grouped by
    [_id], summed, sorted and truncated.

    Every Python variable that holds a pipeline stage is a function here,
    under the name it has in the script; a stage maps the stream of documents
    it receives to the stream it emits, and a stage the server can reject
    returns in the [result] monad.  The two search stages read an index of
    the database; their hit lists (best first) are the inputs of the model.

    Scores are BSON doubles in the database.  They are exact rationals here:
    the development is about the arithmetic law of the pipeline, not about
    rounding. *)

From Stdlib Require Import ZArith QArith Qminmax List Bool Lia String.
From Stdlib Require Import Permutation Sorted.
Import ListNotations.

Local Open Scope Z_scope.

(** ** Server errors *)

(** What [coll.aggregate] raises ([pymongo.errors.OperationFailure]) when the
    server refuses a stage or an expression. *)
Inductive OperationFailure : Set :=
| LimitMustBePositive      (* [$limit] with an argument below 1 *)
| InvalidVectorSearch      (* [$vectorSearch] with limit < 1, numCandidates < limit
                              or numCandidates > 10000 *)
| DivideByZero.            (* [$divide] with a zero divisor *)

Inductive result (A : Type) : Type :=
| Ok (a : A)
| Error (e : OperationFailure).

Arguments Ok {A} a.
Arguments Error {A} e.

Definition bind {A B : Type} (r : result A) (k : A -> result B) : result B :=
  match r with
  | Ok a => k a
  | Error e => Error e
  end.

Notation "x <- r ;; k" := (bind r (fun x => k))
  (at level 61, r at next level, right associativity).

Fixpoint mapM {A B : Type} (f : A -> result B) (l : list A) : result (list B) :=
  match l with
  | [] => Ok []
  | a :: l' => b <- f a ;; bs <- mapM f l' ;; Ok (b :: bs)
  end.

(** ** Documents *)

(** An [ObjectId] is twelve bytes, ordered as an unsigned big-endian number. *)
Definition ObjectId := N.

(** A document of the [movies] collection, with the fields the pipeline
    reads.  A field a movie lacks is [None]. *)
Module Movie.
Record t : Type := mk {
  _id : ObjectId;
  title : option string;
  plot : option string;
  year : option Z
}.
End Movie.

(** The document [add_rank] emits: [{_id: None, docs: <movie>, rank: <index>}]. *)
Module Ranked.
Record t : Type := mk {
  docs : Movie.t;
  rank : Z
}.
End Ranked.

(** The two names [make_compute_score_doc] is called with. *)
Inductive score_field_name : Set := vs_score | ts_score.

Definition score_field_name_eqb (a b : score_field_name) : bool :=
  match a, b with
  | vs_score, vs_score | ts_score, ts_score => true
  | _, _ => false
  end.

(** A ranked document with the score field [$addFields] put on it. *)
Module Scored.
Record t : Type := mk {
  docs : Movie.t;
  rank : Z;
  field : score_field_name;
  value : Q
}.
End Scored.

(** The document [make_projection_doc] emits, which is also the document
    [combine_search_results] emits: a score field that is missing or null
    is [None]. *)
Module Hit.
Record t : Type := mk {
  _id : ObjectId;
  vs_score : option Q;
  ts_score : option Q;
  title : option string;
  plot : option string;
  year : option Z
}.
End Hit.

(** The document of the final result. *)
Module Fused.
Record t : Type := mk {
  _id : ObjectId;
  title : option string;
  plot : option string;
  year : option Z;
  score : Q
}.
End Fused.

(** ** Expressions *)

(** [{"$divide": [a, b]}]: the server fails the aggregation on a zero divisor. *)
Definition divide (a b : Q) : result Q :=
  if Qeq_bool b 0 then Error DivideByZero else Ok (a / b)%Q.

(** [{"$max": ...}] as a [$group] accumulator: null and missing values are
    skipped, and the result is null when every value was skipped. *)
Definition max_acc (acc x : option Q) : option Q :=
  match acc, x with
  | None, _ => x
  | _, None => acc
  | Some a, Some b => Some (if Qle_bool a b then b else a)
  end.

(** [{"$first": ...}] as a [$group] accumulator keeps what the first document
    of the group had, so a later document never changes it. *)
Definition first_acc {A : Type} (acc x : option A) : option A := acc.

(** [{"$ifNull": [x, d]}]. *)
Definition ifNull (x : option Q) (d : Q) : Q :=
  match x with
  | Some q => q
  | None => d
  end.

(** ** Stages *)

Definition overrequest_factor : Z := 10.

(** The greatest [numCandidates] that [$vectorSearch] accepts. *)
Definition max_numCandidates : Z := 10000.

(** [vector_search]: [$vectorSearch] considers [numCandidates] nearest
    neighbours and returns the best [limit] of them.  [neighbours] is the
    index's answer for the query vector, nearest first.  The server rejects
    the stage unless [1 <= limit <= numCandidates <= 10000]. *)
Definition vectorSearch (numCandidates limit : Z) (neighbours : list Movie.t)
  : result (list Movie.t) :=
  if (limit <? 1) || (numCandidates <? limit) || (max_numCandidates <? numCandidates)
  then Error InvalidVectorSearch
  else Ok (firstn (Z.to_nat limit) (firstn (Z.to_nat numCandidates) neighbours)).

Definition vector_search (limit : Z) (neighbours : list Movie.t)
  : result (list Movie.t) :=
  vectorSearch (limit * overrequest_factor) limit neighbours.

(** [text_search]: [$search] emits every match of the text index, most
    relevant first; it has no limit of its own. *)
Definition text_search (matches : list Movie.t) : list Movie.t := matches.

(** [limit_results]: [{"$limit": limit}].  The server accepts a positive
    limit only. *)
Definition limit_results {A : Type} (limit : Z) (input : list A) : result (list A) :=
  if limit <? 1 then Error LimitMustBePositive
  else Ok (firstn (Z.to_nat limit) input).

(** [make_array]: [$group] with the constant key [None] pushes every input
    document on one array; no input document, no group. *)
Definition make_array (input : list Movie.t) : list (list Movie.t) :=
  match input with
  | [] => []
  | _ :: _ => [input]
  end.

(** [add_rank]: [$unwind] of [docs] with [includeArrayIndex: "rank"]. *)
Fixpoint unwind_from (i : Z) (array : list Movie.t) : list Ranked.t :=
  match array with
  | [] => []
  | m :: array' => Ranked.mk m i :: unwind_from (i + 1) array'
  end.

Definition add_rank (input : list (list Movie.t)) : list Ranked.t :=
  flat_map (unwind_from 0) input.

(** [make_compute_score_doc(priority, score_field_name)]:
    [1.0 / ($rank + priority + 1)] under the given field name. *)
Definition make_compute_score_doc (priority : Z) (name : score_field_name)
    (d : Ranked.t) : result Scored.t :=
  q <- divide 1 (inject_Z (Ranked.rank d + priority + 1)) ;;
  Ok (Scored.mk (Ranked.docs d) (Ranked.rank d) name q).

(** [make_projection_doc(score_field_name)]: keeps the named field when the
    document has it and lifts the presentation fields out of [docs]. *)
Definition projected (name wanted : score_field_name) (d : Scored.t) : option Q :=
  if score_field_name_eqb name wanted && score_field_name_eqb (Scored.field d) wanted
  then Some (Scored.value d)
  else None.

Definition make_projection_doc (name : score_field_name) (d : Scored.t) : Hit.t :=
  let m := Scored.docs d in
  Hit.mk (Movie._id m)
         (projected name vs_score d)
         (projected name ts_score d)
         (Movie.title m) (Movie.plot m) (Movie.year m).

(** [combine_search_results]: [$group] by [_id].  A document whose [_id] has
    a group is folded into it; another one opens a group.  The server does not
    fix the order of the groups; the model emits them in the order in which
    they were opened. *)
Definition accumulate (g d : Hit.t) : Hit.t :=
  Hit.mk (Hit._id g)
         (max_acc (Hit.vs_score g) (Hit.vs_score d))
         (max_acc (Hit.ts_score g) (Hit.ts_score d))
         (first_acc (Hit.title g) (Hit.title d))
         (first_acc (Hit.plot g) (Hit.plot d))
         (first_acc (Hit.year g) (Hit.year d)).

Definition open_group (d : Hit.t) : Hit.t :=
  Hit.mk (Hit._id d)
         (max_acc None (Hit.vs_score d))
         (max_acc None (Hit.ts_score d))
         (Hit.title d) (Hit.plot d) (Hit.year d).

Fixpoint group_step (groups : list Hit.t) (d : Hit.t) : list Hit.t :=
  match groups with
  | [] => [open_group d]
  | g :: groups' =>
      if N.eqb (Hit._id g) (Hit._id d) then accumulate g d :: groups'
      else g :: group_step groups' d
  end.

Definition combine_search_results (input : list Hit.t) : list Hit.t :=
  fold_left group_step input [].

(** [project_combined_results]: the sum of the two scores, a null one
    counting as 0. *)
Definition project_combined_results (g : Hit.t) : Fused.t :=
  let vs := ifNull (Hit.vs_score g) 0 in
  let ts := ifNull (Hit.ts_score g) 0 in
  Fused.mk (Hit._id g) (Hit.title g) (Hit.plot g) (Hit.year g) (vs + ts)%Q.

(** [sort_results]: [{"$sort": {"score": -1}}].  [score] is the only key; the
    server leaves the order of documents of equal score open.  This sort keeps
    them in the order in which they arrive, one order among those the server
    may choose ([sorted_by_score] below is all of them): [d], which arrived
    before everything in [sorted], goes in front of the first document whose
    score is not greater than its own. *)
Fixpoint sort_insert (d : Fused.t) (sorted : list Fused.t) : list Fused.t :=
  match sorted with
  | [] => [d]
  | e :: sorted' =>
      if Qle_bool (Fused.score e) (Fused.score d) then d :: sorted
      else e :: sort_insert d sorted'
  end.

Definition sort_results (input : list Fused.t) : list Fused.t :=
  fold_right sort_insert [] input.

(** ** The pipeline *)

(** The stages before [$unionWith]: the vector branch. *)
Definition vector_branch (vector_priority limit : Z) (neighbours : list Movie.t)
  : result (list Hit.t) :=
  found <- vector_search limit neighbours ;;
  scored <- mapM (make_compute_score_doc vector_priority vs_score)
                 (add_rank (make_array found)) ;;
  Ok (map (make_projection_doc vs_score) scored).

(** The pipeline inside [$unionWith]: the text branch. *)
Definition text_branch (text_priority limit : Z) (matches : list Movie.t)
  : result (list Hit.t) :=
  found <- limit_results limit (text_search matches) ;;
  scored <- mapM (make_compute_score_doc text_priority ts_score)
                 (add_rank (make_array found)) ;;
  Ok (map (make_projection_doc ts_score) scored).

(** The stream after [$unionWith]: the documents of the vector branch, then
    those of the text branch.  The server does not fix how the two streams
    follow one another; this is one order ([may_return] below takes any). *)
Definition union_with (vector_priority text_priority limit : Z)
    (neighbours matches : list Movie.t) : result (list Hit.t) :=
  v <- vector_branch vector_priority limit neighbours ;;
  t <- text_branch text_priority limit matches ;;
  Ok (v ++ t).

(** The stream after [combine_search_results] and [project_combined_results]. *)
Definition fused (vector_priority text_priority limit : Z)
    (neighbours matches : list Movie.t) : result (list Fused.t) :=
  u <- union_with vector_priority text_priority limit neighbours matches ;;
  Ok (map project_combined_results (combine_search_results u)).

Definition pipeline (vector_priority text_priority limit : Z)
    (neighbours matches : list Movie.t) : result (list Fused.t) :=
  f <- fused vector_priority text_priority limit neighbours matches ;;
  limit_results limit (sort_results f).

(** ** Every order the server may choose *)

(** Three stages have an output order that the server does not fix:
    [$unionWith] (how the documents of the two branches follow one another),
    [$group] (the order of the groups) and [$sort] (the order of documents of
    equal score).  [pipeline] is one execution: the vector documents first,
    the groups in the order in which they were opened, the sort stable.
    [may_return] is every execution: the union stream in any order, and after
    it any arrangement of the groups that is in descending order of score
    (which covers the order of the groups as well). *)

(** [a] may stand before [b] in the result. *)
Definition score_ge (a b : Fused.t) : Prop := (Fused.score b <= Fused.score a)%Q.

(** What [{"$sort": {"score": -1}}] promises of its output. *)
Definition sorted_by_score (input output : list Fused.t) : Prop :=
  Permutation input output /\ StronglySorted score_ge output.

Definition may_return (vector_priority text_priority limit : Z)
    (neighbours matches : list Movie.t) (out : list Fused.t) : Prop :=
  exists v t u s,
    vector_branch vector_priority limit neighbours = Ok v /\
    text_branch text_priority limit matches = Ok t /\
    Permutation (v ++ t) u /\
    sorted_by_score (map project_combined_results (combine_search_results u)) s /\
    limit_results limit s = Ok out.

(** ** Sample data *)

Module Sample.
Definition A : Movie.t := Movie.mk 1%N (Some "Alpha"%string) None (Some 1999).
Definition B : Movie.t := Movie.mk 2%N (Some "Beta"%string) (Some "b"%string) None.
Definition C : Movie.t := Movie.mk 3%N None None None.
End Sample.

(** ** Notions the statements use *)

(** The divisor of [make_compute_score_doc]: [{"$add": ["$rank", priority, 1]}]. *)
Definition denominator (priority rank : Z) : Z := rank + priority + 1.

(** The documents a branch emits when no division fails, in closed form: the
    movie at position [i] of the hit list becomes the document [hit_of],
    with its score under the branch's field and no other score field. *)
Definition named (name wanted : score_field_name) (q : Q) : option Q :=
  if score_field_name_eqb name wanted then Some q else None.

Definition hit_of (name : score_field_name) (priority i : Z) (m : Movie.t) : Hit.t :=
  let q := (1 / inject_Z (denominator priority i))%Q in
  Hit.mk (Movie._id m) (named name vs_score q) (named name ts_score q)
         (Movie.title m) (Movie.plot m) (Movie.year m).

Fixpoint hits_from (name : score_field_name) (priority i : Z) (found : list Movie.t)
  : list Hit.t :=
  match found with
  | [] => []
  | m :: found' => hit_of name priority i m :: hits_from name priority (i + 1) found'
  end.

(** Two nullable scores compare when both are null or both are numbers. *)
Definition opt_le (a b : option Q) : Prop :=
  match a, b with
  | None, None => True
  | Some x, Some y => (x <= y)%Q
  | _, _ => False
  end.

(** The documents of a stream that carry a given [_id], in stream order. *)
Definition occurrences (i : ObjectId) (l : list Hit.t) : list Hit.t :=
  filter (fun d => N.eqb (Hit._id d) i) l.

(** The score a source records for an item: the [$max] over the scores of the
    item's documents in the stream, null when there is none. *)
Definition ScoreBySource (sel : Hit.t -> option Q) (l : list Hit.t) (i : ObjectId)
  : option Q :=
  fold_left max_acc (map sel (occurrences i l)) None.

(** The same documents, with scores that did not grow. *)
Definition not_above (h' h : Hit.t) : Prop :=
  Hit._id h' = Hit._id h /\
  opt_le (Hit.vs_score h') (Hit.vs_score h) /\
  opt_le (Hit.ts_score h') (Hit.ts_score h).

(** The score field a branch writes, read back from a document. *)
Definition score_of (name : score_field_name) : Hit.t -> option Q :=
  match name with
  | vs_score => Hit.vs_score
  | ts_score => Hit.ts_score
  end.

(** The zero-based position of the first movie with a given [_id] in a hit
    list. *)
Fixpoint position (i : ObjectId) (l : list Movie.t) : option nat :=
  match l with
  | [] => None
  | m :: l' => if N.eqb (Movie._id m) i then Some 0%nat else option_map S (position i l')
  end.

(** What a source adds to the score of an item it lists at a position, and of
    an item it does not list. *)
Definition contribution (priority : Z) (pos : option nat) : Q :=
  match pos with
  | Some n => (1 / inject_Z (Z.of_nat n + priority + 1))%Q
  | None => 0%Q
  end.

(** Whether a branch with [count] candidates meets a zero divisor: some rank
    below [count] has [rank + priority + 1 = 0]. *)
Definition divides_by_zero (priority : Z) (count : nat) : bool :=
  (priority <? 0) && (- priority <=? Z.of_nat count).

(** A document that shows a movie: the same [_id], title, plot and year. *)
Definition shows (h : Hit.t) (m : Movie.t) : Prop :=
  Hit._id h = Movie._id m /\ Hit.title h = Movie.title m /\
  Hit.plot h = Movie.plot m /\ Hit.year h = Movie.year m.

(** The groups of a single branch whose [_id]s are distinct, projected: one
    document per candidate, in the order of the candidates. *)
Definition alone (name : score_field_name) (priority : Z) (k : Z) (found : list Movie.t)
  : list Fused.t :=
  map project_combined_results (map open_group (hits_from name priority k found)).

(** In one source, an item at position [pa] is ahead of an item at position
    [pb]: the first is listed, and the second is listed further down or not
    at all. *)
Definition ahead (pa pb : option nat) : Prop :=
  match pa, pb with
  | Some na, Some nb => (na < nb)%nat
  | Some _, None => True
  | None, _ => False
  end.

(** * Properties *)

(** ** The error monad *)

Lemma bind_Ok {A B : Type} (r : result A) (k : A -> result B) (b : B) :
  bind r k = Ok b -> exists a, r = Ok a /\ k a = Ok b.
Proof.
  destruct r as [a|e]; simpl; intros H; [exists a; auto | discriminate].
Qed.

Ltac inv_bind H :=
  let a := fresh "a" in
  let Ha := fresh "Ha" in
  apply bind_Ok in H; destruct H as (a & Ha & H).

Ltac inv_Ok H := injection H as H; subst.

(** ** Reciprocal scores *)

Lemma divide_by_positive (d : Z) :
  0 < d -> divide 1 (inject_Z d) = Ok (1 # Z.to_pos d).
Proof.
  intros Hd. destruct d as [|p|p]; try lia. reflexivity.
Qed.

Lemma divide_by_zero : divide 1 (inject_Z 0) = Error DivideByZero.
Proof. reflexivity. Qed.

Lemma divide_Ok (d : Z) (q : Q) :
  divide 1 (inject_Z d) = Ok q -> d <> 0 /\ q = (1 / inject_Z d)%Q.
Proof.
  unfold divide. destruct d as [|p|p]; simpl; intros H.
  - discriminate.
  - inv_Ok H. split; [lia | reflexivity].
  - inv_Ok H. split; [lia | reflexivity].
Qed.

Lemma reciprocal_positive (p : positive) : (0 < 1 # p)%Q.
Proof. reflexivity. Qed.

Lemma reciprocal_le_1 (p : positive) : (1 # p <= 1)%Q.
Proof. unfold Qle; simpl. lia. Qed.

Lemma reciprocal_antitone (d d' : Z) :
  0 < d -> d <= d' -> (1 # Z.to_pos d' <= 1 # Z.to_pos d)%Q.
Proof. intros Hd Hle. unfold Qle; simpl. lia. Qed.

Lemma reciprocal_strictly_antitone (d d' : Z) :
  0 < d -> d < d' -> (1 # Z.to_pos d' < 1 # Z.to_pos d)%Q.
Proof. intros Hd Hlt. unfold Qlt; simpl. lia. Qed.

Lemma make_compute_score_doc_Ok (priority : Z) (name : score_field_name) (d : Ranked.t) :
  0 < denominator priority (Ranked.rank d) ->
  make_compute_score_doc priority name d =
    Ok (Scored.mk (Ranked.docs d) (Ranked.rank d) name
                  (1 # Z.to_pos (denominator priority (Ranked.rank d)))).
Proof.
  intros Hd. unfold make_compute_score_doc.
  fold (denominator priority (Ranked.rank d)).
  rewrite (divide_by_positive _ Hd). reflexivity.
Qed.

(** ** Ranks *)

Lemma add_rank_make_array (found : list Movie.t) :
  add_rank (make_array found) = unwind_from 0 found.
Proof.
  destruct found as [|m found]; [reflexivity|].
  unfold add_rank, make_array, flat_map. apply app_nil_r.
Qed.

Lemma unwind_from_nth (found : list Movie.t) :
  forall (i : Z) (n : nat) (d : Ranked.t),
    nth_error (unwind_from i found) n = Some d ->
    nth_error found n = Some (Ranked.docs d) /\ Ranked.rank d = i + Z.of_nat n.
Proof.
  induction found as [|m found IH]; intros i n d H.
  - destruct n; discriminate.
  - destruct n as [|n]; simpl in H.
    + inv_Ok H. simpl. split; [reflexivity | lia].
    + apply IH in H. destruct H as [H1 H2]. split; [exact H1 | lia].
Qed.

(** The rank of a candidate is its zero-based position in the hit list of
    its source. *)
Lemma add_rank_position (found : list Movie.t) (n : nat) (d : Ranked.t) :
  nth_error (add_rank (make_array found)) n = Some d ->
  nth_error found n = Some (Ranked.docs d) /\ Ranked.rank d = Z.of_nat n.
Proof.
  rewrite add_rank_make_array. intros H.
  apply unwind_from_nth in H. destruct H as [H1 H2]. split; [exact H1 | lia].
Qed.

(** ** The documents of a branch in closed form *)

Lemma projected_named (name wanted : score_field_name) (m : Movie.t) (r : Z) (q : Q) :
  projected name wanted (Scored.mk m r name q) = named name wanted q.
Proof. destruct name, wanted; reflexivity. Qed.

Lemma scored_stream (name : score_field_name) (priority : Z) (found : list Movie.t) :
  forall (i : Z) (scored : list Scored.t),
    mapM (make_compute_score_doc priority name) (unwind_from i found) = Ok scored ->
    map (make_projection_doc name) scored = hits_from name priority i found.
Proof.
  induction found as [|m found IH]; intros i scored H; simpl in H.
  - inv_Ok H. reflexivity.
  - inv_bind H. inv_bind H. inv_Ok H.
    unfold make_compute_score_doc in Ha. inv_bind Ha. inv_Ok Ha. simpl in Ha1.
    apply divide_Ok in Ha1. destruct Ha1 as [_ ->].
    simpl. rewrite (IH _ _ Ha0). f_equal.
    unfold make_projection_doc, hit_of; simpl.
    rewrite !projected_named. reflexivity.
Qed.

Lemma scored_stream_total (name : score_field_name) (priority : Z) (found : list Movie.t) :
  0 <= priority ->
  forall i : Z, 0 <= i ->
    exists scored, mapM (make_compute_score_doc priority name) (unwind_from i found) = Ok scored.
Proof.
  intros Hp. induction found as [|m found IH]; intros i Hi; simpl.
  - eexists; reflexivity.
  - rewrite make_compute_score_doc_Ok by (unfold denominator; simpl; lia).
    destruct (IH (i + 1)) as [scored Hs]; [lia|].
    simpl. rewrite Hs. simpl. eexists; reflexivity.
Qed.

Lemma hits_from_ids (name : score_field_name) (priority : Z) (found : list Movie.t) :
  forall i : Z, map Hit._id (hits_from name priority i found) = map Movie._id found.
Proof.
  induction found as [|m found IH]; intros i; simpl; [reflexivity|].
  now rewrite IH.
Qed.

Lemma hits_from_length (name : score_field_name) (priority : Z) (found : list Movie.t) :
  forall i : Z, List.length (hits_from name priority i found) = List.length found.
Proof.
  intros i. rewrite <- (length_map Hit._id), hits_from_ids. apply length_map.
Qed.

Lemma hits_from_In (name : score_field_name) (priority : Z) (found : list Movie.t) :
  forall (i : Z) (h : Hit.t),
    In h (hits_from name priority i found) ->
    exists (n : nat) (m : Movie.t),
      nth_error found n = Some m /\ h = hit_of name priority (i + Z.of_nat n) m.
Proof.
  induction found as [|m found IH]; intros i h H; simpl in H; [contradiction|].
  destruct H as [<- | H].
  - exists 0%nat, m. split; [reflexivity|]. now rewrite Z.add_0_r.
  - apply IH in H. destruct H as (n & m' & Hn & ->).
    exists (S n), m'. split; [exact Hn|]. f_equal. lia.
Qed.

Lemma hits_from_nth (name : score_field_name) (priority : Z) (found : list Movie.t) :
  forall (i : Z) (n : nat) (m : Movie.t),
    nth_error found n = Some m ->
    nth_error (hits_from name priority i found) n = Some (hit_of name priority (i + Z.of_nat n) m).
Proof.
  induction found as [|m0 found IH]; intros i n m H.
  - destruct n; discriminate.
  - destruct n as [|n]; simpl in *.
    + inv_Ok H. now rewrite Z.add_0_r.
    + rewrite (IH _ _ _ H). do 2 f_equal. lia.
Qed.

(** ** The branches and their union *)

Lemma limit_results_Ok {A : Type} (limit : Z) (input out : list A) :
  limit_results limit input = Ok out ->
  1 <= limit /\ out = firstn (Z.to_nat limit) input.
Proof.
  unfold limit_results. destruct (Z.ltb_spec limit 1); intros E; [discriminate|].
  inv_Ok E. split; [lia | reflexivity].
Qed.

Lemma limit_results_total {A : Type} (limit : Z) (input : list A) :
  1 <= limit -> limit_results limit input = Ok (firstn (Z.to_nat limit) input).
Proof.
  intros H. unfold limit_results. destruct (Z.ltb_spec limit 1); [lia | reflexivity].
Qed.

Lemma firstn_firstn_le {A : Type} (n k : nat) (l : list A) :
  (n <= k)%nat -> firstn n (firstn k l) = firstn n l.
Proof. intros H. rewrite firstn_firstn. f_equal. lia. Qed.

Lemma vector_search_Ok (limit : Z) (neighbours found : list Movie.t) :
  vector_search limit neighbours = Ok found ->
  1 <= limit /\ found = firstn (Z.to_nat limit) neighbours.
Proof.
  unfold vector_search, vectorSearch, overrequest_factor.
  destruct (Z.ltb_spec limit 1); simpl; [discriminate|].
  destruct (Z.ltb_spec (limit * 10) limit); simpl; [discriminate|].
  destruct (Z.ltb_spec max_numCandidates (limit * 10)); intros E; [discriminate|].
  inv_Ok E. split; [lia|]. apply firstn_firstn_le. lia.
Qed.

(** The vector search goes through only for a limit from 1 to 1000, ten times
    which is still an admissible [numCandidates]. *)
Lemma vector_search_limit (limit : Z) (neighbours found : list Movie.t) :
  vector_search limit neighbours = Ok found -> 1 <= limit <= 1000.
Proof.
  unfold vector_search, vectorSearch, overrequest_factor, max_numCandidates.
  destruct (Z.ltb_spec limit 1); simpl; [discriminate|].
  destruct (Z.ltb_spec (limit * 10) limit); simpl; [discriminate|].
  destruct (Z.ltb_spec 10000 (limit * 10)); intros E; [discriminate|]. lia.
Qed.

Lemma vector_search_rejects (limit : Z) (neighbours : list Movie.t) :
  limit < 1 \/ 1000 < limit ->
  vector_search limit neighbours = Error InvalidVectorSearch.
Proof.
  intros H. unfold vector_search, vectorSearch, overrequest_factor, max_numCandidates.
  destruct (Z.ltb_spec limit 1); simpl; [reflexivity|].
  destruct (Z.ltb_spec (limit * 10) limit); simpl; [reflexivity|].
  destruct (Z.ltb_spec 10000 (limit * 10)); [reflexivity | lia].
Qed.

Lemma vector_search_total (limit : Z) (neighbours : list Movie.t) :
  1 <= limit <= 1000 ->
  vector_search limit neighbours = Ok (firstn (Z.to_nat limit) neighbours).
Proof.
  intros H. unfold vector_search, vectorSearch, overrequest_factor, max_numCandidates.
  destruct (Z.ltb_spec limit 1); [lia|].
  destruct (Z.ltb_spec (limit * 10) limit); [lia|].
  destruct (Z.ltb_spec 10000 (limit * 10)); [lia|]. simpl.
  f_equal. apply firstn_firstn_le. lia.
Qed.

Lemma vector_branch_Ok (priority limit : Z) (neighbours : list Movie.t) (v : list Hit.t) :
  vector_branch priority limit neighbours = Ok v ->
  1 <= limit /\ v = hits_from vs_score priority 0 (firstn (Z.to_nat limit) neighbours).
Proof.
  unfold vector_branch. intros H. inv_bind H. inv_bind H. inv_Ok H.
  apply vector_search_Ok in Ha. destruct Ha as [Hl ->]. split; [exact Hl|].
  rewrite add_rank_make_array in Ha0. now apply scored_stream.
Qed.

Lemma text_branch_Ok (priority limit : Z) (matches : list Movie.t) (t : list Hit.t) :
  text_branch priority limit matches = Ok t ->
  1 <= limit /\ t = hits_from ts_score priority 0 (firstn (Z.to_nat limit) matches).
Proof.
  unfold text_branch, text_search. intros H. inv_bind H. inv_bind H. inv_Ok H.
  apply limit_results_Ok in Ha. destruct Ha as [Hl ->]. split; [exact Hl|].
  rewrite add_rank_make_array in Ha0. now apply scored_stream.
Qed.

Lemma vector_branch_total (priority limit : Z) (neighbours : list Movie.t) :
  1 <= limit <= 1000 -> 0 <= priority ->
  vector_branch priority limit neighbours =
    Ok (hits_from vs_score priority 0 (firstn (Z.to_nat limit) neighbours)).
Proof.
  intros Hl Hp.
  destruct (scored_stream_total vs_score priority (firstn (Z.to_nat limit) neighbours) Hp 0)
    as [scored Hs]; [lia|].
  unfold vector_branch. rewrite (vector_search_total _ _ Hl). simpl.
  rewrite add_rank_make_array, Hs. simpl. f_equal. now apply scored_stream.
Qed.

Lemma text_branch_total (priority limit : Z) (matches : list Movie.t) :
  1 <= limit -> 0 <= priority ->
  text_branch priority limit matches =
    Ok (hits_from ts_score priority 0 (firstn (Z.to_nat limit) matches)).
Proof.
  intros Hl Hp.
  destruct (scored_stream_total ts_score priority (firstn (Z.to_nat limit) matches) Hp 0)
    as [scored Hs]; [lia|].
  unfold text_branch, text_search. rewrite (limit_results_total _ _ Hl). simpl.
  rewrite add_rank_make_array, Hs. simpl. f_equal. now apply scored_stream.
Qed.

Lemma union_with_Ok (vector_priority text_priority limit : Z)
    (neighbours matches : list Movie.t) (u : list Hit.t) :
  union_with vector_priority text_priority limit neighbours matches = Ok u ->
  1 <= limit /\
  u = hits_from vs_score vector_priority 0 (firstn (Z.to_nat limit) neighbours) ++
      hits_from ts_score text_priority 0 (firstn (Z.to_nat limit) matches).
Proof.
  unfold union_with. intros H. inv_bind H. inv_bind H. inv_Ok H.
  apply vector_branch_Ok in Ha. apply text_branch_Ok in Ha0.
  destruct Ha as [Hl ->], Ha0 as [_ ->]. split; [exact Hl | reflexivity].
Qed.

Lemma union_with_limit (vector_priority text_priority limit : Z)
    (neighbours matches : list Movie.t) (u : list Hit.t) :
  union_with vector_priority text_priority limit neighbours matches = Ok u ->
  1 <= limit <= 1000.
Proof.
  unfold union_with, vector_branch. intros H.
  destruct (vector_search limit neighbours) as [found|e] eqn:E; [|discriminate].
  now apply vector_search_limit in E.
Qed.

Lemma union_with_total (vector_priority text_priority limit : Z)
    (neighbours matches : list Movie.t) :
  1 <= limit <= 1000 -> 0 <= vector_priority -> 0 <= text_priority ->
  union_with vector_priority text_priority limit neighbours matches =
    Ok (hits_from vs_score vector_priority 0 (firstn (Z.to_nat limit) neighbours) ++
        hits_from ts_score text_priority 0 (firstn (Z.to_nat limit) matches)).
Proof.
  intros Hl Hv Ht. unfold union_with.
  rewrite (vector_branch_total _ _ _ Hl Hv), (text_branch_total _ _ _ (proj1 Hl) Ht).
  reflexivity.
Qed.

(** ** The [$max] accumulator *)

Lemma Qle_bool_false (a b : Q) : Qle_bool a b = false -> (b <= a)%Q.
Proof.
  intros H. destruct (Qlt_le_dec b a) as [Hlt | Hle].
  - now apply Qlt_le_weak.
  - apply Qle_bool_iff in Hle. congruence.
Qed.

Lemma max_acc_upper (a b : Q) :
  exists c, max_acc (Some a) (Some b) = Some c /\ (a <= c)%Q /\ (b <= c)%Q /\ (c = a \/ c = b).
Proof.
  simpl. destruct (Qle_bool a b) eqn:E; eexists; split; try reflexivity.
  - apply Qle_bool_iff in E. repeat split; [exact E | apply Qle_refl | now right].
  - apply Qle_bool_false in E. repeat split; [apply Qle_refl | exact E | now left].
Qed.

Lemma fold_max_acc_Some (xs : list (option Q)) :
  forall a : Q, exists c, fold_left max_acc xs (Some a) = Some c /\ (a <= c)%Q.
Proof.
  induction xs as [|x xs IH]; intros a; cbn [fold_left].
  - exists a. split; [reflexivity | apply Qle_refl].
  - destruct x as [b|].
    + destruct (max_acc_upper a b) as (c & Hc & Hac & _). rewrite Hc.
      destruct (IH c) as (c' & Hc' & Hle). exists c'. split; [exact Hc'|].
      eapply Qle_trans; eassumption.
    + apply IH.
Qed.

(** The accumulated value bounds every number that went in. *)
Lemma fold_max_acc_upper (xs : list (option Q)) :
  forall (acc : option Q) (q : Q),
    In (Some q) xs -> exists c, fold_left max_acc xs acc = Some c /\ (q <= c)%Q.
Proof.
  induction xs as [|x xs IH]; intros acc q H; [contradiction|].
  destruct H as [-> | H]; cbn [fold_left].
  - destruct acc as [a|].
    + destruct (max_acc_upper a q) as (c & Hc & _ & Hqc & _). rewrite Hc.
      destruct (fold_max_acc_Some xs c) as (c' & Hc' & Hle). exists c'.
      split; [exact Hc'|]. eapply Qle_trans; eassumption.
    + apply fold_max_acc_Some.
  - now apply IH.
Qed.

(** The accumulated value is one of the numbers that went in. *)
Lemma fold_max_acc_attained (xs : list (option Q)) :
  forall (acc : option Q) (c : Q),
    fold_left max_acc xs acc = Some c -> acc = Some c \/ In (Some c) xs.
Proof.
  induction xs as [|x xs IH]; intros acc c H; simpl in H; [now left|].
  apply IH in H. destruct H as [H | H]; [|right; now right].
  destruct acc as [a|], x as [b|]; simpl in H; auto.
  - destruct (Qle_bool a b); inv_Ok H; [right; now left | now left].
  - right; now left.
Qed.

Lemma fold_max_acc_None (xs : list (option Q)) :
  fold_left max_acc xs None = None <-> forall q, ~ In (Some q) xs.
Proof.
  split.
  - intros H q Hin.
    destruct (fold_max_acc_upper xs None q Hin) as (c & Hc & _). congruence.
  - intros H. destruct (fold_left max_acc xs None) as [c|] eqn:E; [|reflexivity].
    apply fold_max_acc_attained in E. destruct E as [E | E]; [discriminate|].
    now apply H in E.
Qed.

Lemma max_acc_monotone (a a' x x' : option Q) :
  opt_le a a' -> opt_le x x' -> opt_le (max_acc a x) (max_acc a' x').
Proof.
  destruct a as [a|], a' as [a'|], x as [x|], x' as [x'|]; simpl; try tauto.
  intros Ha Hx.
  destruct (Qle_bool a x) eqn:E, (Qle_bool a' x') eqn:E'; auto.
  - apply Qle_bool_false in E'. eapply Qle_trans; eassumption.
  - apply Qle_bool_iff in E'. eapply Qle_trans; eassumption.
Qed.

Lemma fold_max_acc_monotone (xs xs' : list (option Q)) :
  Forall2 opt_le xs xs' ->
  forall acc acc', opt_le acc acc' ->
    opt_le (fold_left max_acc xs acc) (fold_left max_acc xs' acc').
Proof.
  induction 1 as [|x x' xs xs' Hx _ IH]; intros acc acc' Hacc; simpl; [exact Hacc|].
  apply IH. now apply max_acc_monotone.
Qed.

Lemma ifNull_monotone (a b : option Q) : opt_le a b -> (ifNull a 0 <= ifNull b 0)%Q.
Proof. destruct a, b; simpl; try tauto. intros _. apply Qle_refl. Qed.

(** ** Grouping by [_id] *)

Lemma occurrences_In (i : ObjectId) (l : list Hit.t) (d : Hit.t) :
  In d (occurrences i l) <-> In d l /\ Hit._id d = i.
Proof.
  unfold occurrences. rewrite filter_In. now rewrite N.eqb_eq.
Qed.

Lemma occurrences_absent (i : ObjectId) (l : list Hit.t) :
  ~ In i (map Hit._id l) -> occurrences i l = [].
Proof.
  intros H. destruct (occurrences i l) as [|d ds] eqn:E; [reflexivity|].
  exfalso. apply H.
  assert (Hd : In d (occurrences i l)) by (rewrite E; now left).
  apply occurrences_In in Hd. destruct Hd as [Hd <-]. now apply in_map.
Qed.

Lemma ScoreBySource_snoc (sel : Hit.t -> option Q) (l : list Hit.t) (d : Hit.t) (i : ObjectId) :
  ScoreBySource sel (l ++ [d]) i =
    if N.eqb (Hit._id d) i then max_acc (ScoreBySource sel l i) (sel d)
    else ScoreBySource sel l i.
Proof.
  unfold ScoreBySource, occurrences. rewrite filter_app. simpl.
  destruct (N.eqb (Hit._id d) i).
  - now rewrite map_app, fold_left_app.
  - now rewrite app_nil_r.
Qed.

Lemma combine_search_results_snoc (l : list Hit.t) (d : Hit.t) :
  combine_search_results (l ++ [d]) = group_step (combine_search_results l) d.
Proof. unfold combine_search_results. now rewrite fold_left_app. Qed.

Lemma group_step_ids (gs : list Hit.t) (d : Hit.t) (i : ObjectId) :
  In i (map Hit._id (group_step gs d)) <-> In i (map Hit._id gs) \/ i = Hit._id d.
Proof.
  induction gs as [|g gs IH]; simpl.
  - intuition congruence.
  - destruct (N.eqb_spec (Hit._id g) (Hit._id d)) as [E | E]; simpl.
    + intuition congruence.
    + rewrite IH. tauto.
Qed.

Lemma group_step_NoDup (gs : list Hit.t) (d : Hit.t) :
  NoDup (map Hit._id gs) -> NoDup (map Hit._id (group_step gs d)).
Proof.
  induction gs as [|g gs IH]; simpl; intros H.
  - constructor; [intros [] | constructor].
  - inversion H as [|? ? Hnotin Hrest]; subst.
    destruct (N.eqb_spec (Hit._id g) (Hit._id d)) as [E | E]; simpl.
    + now constructor.
    + constructor; [|now apply IH].
      rewrite group_step_ids. intros [Hin | Heq]; [contradiction | congruence].
Qed.

(** A group after one more document is an old group the document left
    alone, the old group of the document's [_id] with the document folded in,
    or a new group made of the document. *)
Lemma group_step_In (gs : list Hit.t) (d g' : Hit.t) :
  NoDup (map Hit._id gs) ->
  In g' (group_step gs d) ->
  (In g' gs /\ Hit._id g' <> Hit._id d) \/
  (exists g, In g gs /\ Hit._id g = Hit._id d /\ g' = accumulate g d) \/
  (~ In (Hit._id d) (map Hit._id gs) /\ g' = open_group d).
Proof.
  induction gs as [|g gs IH]; simpl; intros Hnd H.
  - destruct H as [<- | []]. right; right. split; [tauto | reflexivity].
  - inversion Hnd as [|? ? Hnotin Hrest]; subst.
    destruct (N.eqb_spec (Hit._id g) (Hit._id d)) as [E | E]; simpl in H.
    + destruct H as [<- | H].
      * right; left. exists g. repeat split; [now left | exact E].
      * left. split; [now right|]. intros E'. apply Hnotin.
        rewrite E, <- E'. now apply in_map.
    + destruct H as [<- | H].
      * left. split; [now left | exact E].
      * apply (IH Hrest) in H. destruct H as [[H1 H2] | [(g0 & H1 & H2 & H3) | [H1 H2]]].
        -- left. split; [now right | exact H2].
        -- right; left. exists g0. repeat split; auto.
        -- right; right. split; [|exact H2]. intros [Hc | Hc]; [congruence | contradiction].
Qed.

Lemma combine_search_results_NoDup (l : list Hit.t) :
  NoDup (map Hit._id (combine_search_results l)).
Proof.
  induction l as [|d l IH] using rev_ind.
  - constructor.
  - rewrite combine_search_results_snoc. now apply group_step_NoDup.
Qed.

Lemma combine_search_results_ids (l : list Hit.t) (i : ObjectId) :
  In i (map Hit._id (combine_search_results l)) <-> In i (map Hit._id l).
Proof.
  induction l as [|d l IH] using rev_ind.
  - reflexivity.
  - rewrite combine_search_results_snoc, group_step_ids, IH, map_app, in_app_iff.
    simpl. intuition congruence.
Qed.

(** What a group holds: for each score field the [$max] over the documents
    of its [_id]. *)
Lemma combine_search_results_scores (l : list Hit.t) :
  forall g : Hit.t,
    In g (combine_search_results l) ->
    Hit.vs_score g = ScoreBySource Hit.vs_score l (Hit._id g) /\
    Hit.ts_score g = ScoreBySource Hit.ts_score l (Hit._id g).
Proof.
  induction l as [|d l IH] using rev_ind; intros g' H; [contradiction|].
  rewrite combine_search_results_snoc in H.
  apply group_step_In in H; [|apply combine_search_results_NoDup].
  rewrite !ScoreBySource_snoc.
  destruct H as [[H1 H2] | [(g & H1 & H2 & ->) | [H1 ->]]].
  - destruct (N.eqb_spec (Hit._id d) (Hit._id g')) as [E | E]; [congruence|].
    now apply IH.
  - simpl. rewrite H2, N.eqb_refl. rewrite <- H2.
    destruct (IH g H1) as [<- <-]. split; reflexivity.
  - simpl. rewrite N.eqb_refl.
    rewrite combine_search_results_ids in H1.
    unfold ScoreBySource. rewrite (occurrences_absent _ _ H1). split; reflexivity.
Qed.

(** ** Sorting by score *)

Lemma sort_insert_Permutation (d : Fused.t) (sorted : list Fused.t) :
  Permutation (sort_insert d sorted) (d :: sorted).
Proof.
  induction sorted as [|e sorted IH]; simpl; [reflexivity|].
  destruct (Qle_bool (Fused.score e) (Fused.score d)); [reflexivity|].
  rewrite IH. apply perm_swap.
Qed.

Lemma sort_results_Permutation (input : list Fused.t) :
  Permutation (sort_results input) input.
Proof.
  induction input as [|d input IH]; simpl; [reflexivity|].
  rewrite sort_insert_Permutation. now constructor.
Qed.

Lemma sort_insert_StronglySorted (d : Fused.t) (sorted : list Fused.t) :
  StronglySorted score_ge sorted -> StronglySorted score_ge (sort_insert d sorted).
Proof.
  induction sorted as [|e sorted IH]; simpl; intros H.
  - repeat constructor.
  - inversion H as [|? ? Hs Hall]; subst.
    destruct (Qle_bool (Fused.score e) (Fused.score d)) eqn:E.
    + apply Qle_bool_iff in E. constructor; [exact H|].
      constructor; [exact E|].
      eapply Forall_impl; [|exact Hall].
      intros x Hx. unfold score_ge in *. eapply Qle_trans; eassumption.
    + apply Qle_bool_false in E. constructor; [now apply IH|].
      eapply Permutation_Forall; [symmetry; apply sort_insert_Permutation|].
      now constructor.
Qed.

Lemma sort_results_StronglySorted (input : list Fused.t) :
  StronglySorted score_ge (sort_results input).
Proof.
  induction input as [|d input IH]; simpl; [constructor|].
  now apply sort_insert_StronglySorted.
Qed.


Lemma firstn_In {A : Type} (n : nat) (l : list A) (x : A) :
  In x (firstn n l) -> In x l.
Proof.
  intros H. rewrite <- (firstn_skipn n l). apply in_or_app. now left.
Qed.

Lemma firstn_NoDup_map {A B : Type} (f : A -> B) (n : nat) (l : list A) :
  NoDup (map f l) -> NoDup (map f (firstn n l)).
Proof.
  intros H. rewrite <- (firstn_skipn n l), map_app in H.
  now apply NoDup_app_remove_r in H.
Qed.

(** ** The result of the pipeline *)

Lemma fused_Ok (vector_priority text_priority limit : Z)
    (neighbours matches : list Movie.t) (f : list Fused.t) :
  fused vector_priority text_priority limit neighbours matches = Ok f ->
  exists u,
    union_with vector_priority text_priority limit neighbours matches = Ok u /\
    f = map project_combined_results (combine_search_results u).
Proof.
  unfold fused. intros H. inv_bind H. inv_Ok H. now exists a.
Qed.

Lemma pipeline_Ok (vector_priority text_priority limit : Z)
    (neighbours matches : list Movie.t) (out : list Fused.t) :
  pipeline vector_priority text_priority limit neighbours matches = Ok out ->
  exists f,
    fused vector_priority text_priority limit neighbours matches = Ok f /\
    out = firstn (Z.to_nat limit) (sort_results f).
Proof.
  unfold pipeline. intros H. inv_bind H.
  apply limit_results_Ok in H. destruct H as [_ ->]. now exists a.
Qed.

(** Every document of the result is the projection of one group. *)
Lemma pipeline_In (vector_priority text_priority limit : Z)
    (neighbours matches : list Movie.t) (out : list Fused.t) (d : Fused.t) :
  pipeline vector_priority text_priority limit neighbours matches = Ok out ->
  In d out ->
  exists u g,
    union_with vector_priority text_priority limit neighbours matches = Ok u /\
    In g (combine_search_results u) /\ d = project_combined_results g.
Proof.
  intros H Hd. apply pipeline_Ok in H. destruct H as (f & Hf & ->).
  apply fused_Ok in Hf. destruct Hf as (u & Hu & ->).
  apply firstn_In in Hd.
  apply (Permutation_in _ (sort_results_Permutation _)) in Hd.
  apply in_map_iff in Hd. destruct Hd as (g & <- & Hg).
  now exists u, g.
Qed.

(** With a limit from 1 to 1000 and priorities that are not negative, no
    stage fails. *)
Lemma pipeline_total (vector_priority text_priority limit : Z)
    (neighbours matches : list Movie.t) :
  1 <= limit <= 1000 -> 0 <= vector_priority -> 0 <= text_priority ->
  exists out, pipeline vector_priority text_priority limit neighbours matches = Ok out.
Proof.
  intros Hl Hv Ht. unfold pipeline, fused.
  rewrite (union_with_total _ _ _ _ _ Hl Hv Ht). simpl.
  rewrite (limit_results_total _ _ (proj1 Hl)). eexists; reflexivity.
Qed.

(** ** The score of one candidate *)

Lemma reciprocal_eq (d : Z) : 0 < d -> (1 / inject_Z d)%Q = 1 # Z.to_pos d.
Proof. intros Hd. destruct d as [|p|p]; try lia. reflexivity. Qed.

(** C1.  For a candidate at rank [r] (ranks start at 0) and a priority that is
    not negative, [make_compute_score_doc] puts the score
    [1 / (r + priority + 1)] under the field it was given: rank 0 scores 1
    with priority 0 and 1/2 with priority 1, and with the priority fixed a
    candidate further down the list scores strictly less. *)
Theorem per_source_score (priority : Z) (name : score_field_name) (m : Movie.t) (r : Z) :
  0 <= r -> 0 <= priority ->
  exists s,
    make_compute_score_doc priority name (Ranked.mk m r) = Ok s /\
    Scored.field s = name /\
    (Scored.value s == 1 / inject_Z (r + priority + 1))%Q /\
    (r = 0 -> priority = 0 -> (Scored.value s == 1)%Q) /\
    (r = 0 -> priority = 1 -> (Scored.value s == 1 # 2)%Q) /\
    (forall r' s',
        r < r' ->
        make_compute_score_doc priority name (Ranked.mk m r') = Ok s' ->
        (Scored.value s' < Scored.value s)%Q).
Proof.
  intros Hr Hp.
  assert (Hd : 0 < denominator priority r) by (unfold denominator; lia).
  eexists. split; [apply make_compute_score_doc_Ok; exact Hd|]. simpl.
  split; [reflexivity|].
  split; [fold (denominator priority r); now rewrite (reciprocal_eq _ Hd)|].
  split; [intros -> ->; reflexivity|].
  split; [intros -> ->; reflexivity|].
  intros r' s' Hlt Hs'.
  rewrite make_compute_score_doc_Ok in Hs' by (unfold denominator; simpl; lia).
  inv_Ok Hs'. simpl.
  apply reciprocal_strictly_antitone; [exact Hd | unfold denominator; lia].
Qed.

Lemma per_source_score_witness :
  0 <= 0 /\ 0 <= 1 /\
  exists s,
    make_compute_score_doc 1 ts_score (Ranked.mk Sample.A 0) = Ok s /\
    Scored.field s = ts_score /\
    (Scored.value s == 1 / inject_Z (0 + 1 + 1))%Q /\
    (0 = 0 -> 1 = 0 -> (Scored.value s == 1)%Q) /\
    (0 = 0 -> 1 = 1 -> (Scored.value s == 1 # 2)%Q) /\
    (forall r' s',
        0 < r' ->
        make_compute_score_doc 1 ts_score (Ranked.mk Sample.A r') = Ok s' ->
        (Scored.value s' < Scored.value s)%Q).
Proof.
  split; [lia|]. split; [lia|].
  apply (per_source_score 1 ts_score Sample.A 0); lia.
Defined.

(** ** The score a source records for an item *)

Lemma ScoreBySource_upper (sel : Hit.t -> option Q) (l : list Hit.t) (h : Hit.t) (q : Q) :
  In h l -> sel h = Some q ->
  exists c, ScoreBySource sel l (Hit._id h) = Some c /\ (q <= c)%Q.
Proof.
  intros Hin Hq. unfold ScoreBySource. apply fold_max_acc_upper.
  rewrite <- Hq. apply in_map. apply occurrences_In. now split.
Qed.

Lemma ScoreBySource_attained (sel : Hit.t -> option Q) (l : list Hit.t) (i : ObjectId) (c : Q) :
  ScoreBySource sel l i = Some c ->
  exists h, In h l /\ Hit._id h = i /\ sel h = Some c.
Proof.
  unfold ScoreBySource. intros H.
  apply fold_max_acc_attained in H. destruct H as [H | H]; [discriminate|].
  apply in_map_iff in H. destruct H as (h & Hh & Hin).
  apply occurrences_In in Hin. destruct Hin as [Hin Hid]. now exists h.
Qed.

Lemma ScoreBySource_absent (sel : Hit.t -> option Q) (l : list Hit.t) (i : ObjectId) :
  ~ In i (map Hit._id l) -> ScoreBySource sel l i = None.
Proof.
  intros H. unfold ScoreBySource. now rewrite (occurrences_absent _ _ H).
Qed.

Lemma fold_max_acc_nulls (xs : list (option Q)) (acc : option Q) :
  (forall x, In x xs -> x = None) -> fold_left max_acc xs acc = acc.
Proof.
  revert acc. induction xs as [|x xs IH]; intros acc H; simpl; [reflexivity|].
  rewrite (H x) by now left. rewrite IH by (intros y Hy; apply H; now right).
  now destruct acc.
Qed.

Lemma ScoreBySource_app (sel : Hit.t -> option Q) (l l' : list Hit.t) (i : ObjectId) :
  ScoreBySource sel (l ++ l') i =
    fold_left max_acc (map sel (occurrences i l')) (ScoreBySource sel l i).
Proof.
  unfold ScoreBySource, occurrences. now rewrite filter_app, map_app, fold_left_app.
Qed.

(** Documents that lack the field do not take part. *)
Lemma ScoreBySource_app_l (sel : Hit.t -> option Q) (l l' : list Hit.t) (i : ObjectId) :
  (forall h, In h l' -> sel h = None) ->
  ScoreBySource sel (l ++ l') i = ScoreBySource sel l i.
Proof.
  intros H. rewrite ScoreBySource_app. apply fold_max_acc_nulls.
  intros x Hx. apply in_map_iff in Hx. destruct Hx as (h & <- & Hh).
  apply H. apply occurrences_In in Hh. tauto.
Qed.

Lemma ScoreBySource_app_r (sel : Hit.t -> option Q) (l l' : list Hit.t) (i : ObjectId) :
  (forall h, In h l -> sel h = None) ->
  ScoreBySource sel (l ++ l') i = ScoreBySource sel l' i.
Proof.
  intros H. rewrite ScoreBySource_app.
  replace (ScoreBySource sel l i) with (@None Q); [reflexivity|].
  symmetry. unfold ScoreBySource. apply fold_max_acc_nulls.
  intros x Hx. apply in_map_iff in Hx. destruct Hx as (h & <- & Hh).
  apply H. apply occurrences_In in Hh. tauto.
Qed.

Lemma hits_from_vs (priority : Z) (found : list Movie.t) (i : Z) (h : Hit.t) :
  In h (hits_from vs_score priority i found) ->
  Hit.ts_score h = None /\ exists q, Hit.vs_score h = Some q.
Proof.
  intros H. apply hits_from_In in H. destruct H as (n & m & _ & ->).
  split; [reflexivity | eexists; reflexivity].
Qed.

Lemma hits_from_ts (priority : Z) (found : list Movie.t) (i : Z) (h : Hit.t) :
  In h (hits_from ts_score priority i found) ->
  Hit.vs_score h = None /\ exists q, Hit.ts_score h = Some q.
Proof.
  intros H. apply hits_from_In in H. destruct H as (n & m & _ & ->).
  split; [reflexivity | eexists; reflexivity].
Qed.

Lemma union_with_branches (vector_priority text_priority limit : Z)
    (neighbours matches : list Movie.t) (u : list Hit.t) :
  union_with vector_priority text_priority limit neighbours matches = Ok u ->
  exists v t,
    vector_branch vector_priority limit neighbours = Ok v /\
    text_branch text_priority limit matches = Ok t /\
    u = v ++ t.
Proof.
  unfold union_with. intros H. inv_bind H. inv_bind H. inv_Ok H.
  now exists a, a0.
Qed.

(** In the union a source's field is found on that source's documents only. *)
Lemma branches_ScoreBySource (vector_priority text_priority limit : Z)
    (neighbours matches : list Movie.t) (v t : list Hit.t) (i : ObjectId) :
  vector_branch vector_priority limit neighbours = Ok v ->
  text_branch text_priority limit matches = Ok t ->
  ScoreBySource Hit.vs_score (v ++ t) i = ScoreBySource Hit.vs_score v i /\
  ScoreBySource Hit.ts_score (v ++ t) i = ScoreBySource Hit.ts_score t i.
Proof.
  intros Hv Ht.
  apply vector_branch_Ok in Hv. apply text_branch_Ok in Ht.
  destruct Hv as [_ ->], Ht as [_ ->]. split.
  - apply ScoreBySource_app_l. intros h Hh. now apply hits_from_ts in Hh.
  - apply ScoreBySource_app_r. intros h Hh. now apply hits_from_vs in Hh.
Qed.

Lemma ScoreBySource_present (sel : Hit.t -> option Q) (l : list Hit.t) (i : ObjectId) :
  (forall h, In h l -> exists q, sel h = Some q) ->
  In i (map Hit._id l) -> exists c, ScoreBySource sel l i = Some c.
Proof.
  intros Hsel Hin. apply in_map_iff in Hin. destruct Hin as (h & <- & Hh).
  destruct (Hsel h Hh) as [q Hq].
  destruct (ScoreBySource_upper sel l h q Hh Hq) as (c & Hc & _). now exists c.
Qed.

Lemma NoDup_map_In_eq {A B : Type} (f : A -> B) (l : list A) (a b : A) :
  NoDup (map f l) -> In a l -> In b l -> f a = f b -> a = b.
Proof.
  induction l as [|x l IH]; simpl; intros Hnd Ha Hb E; [contradiction|].
  inversion Hnd as [|? ? Hnotin Hrest]; subst.
  destruct Ha as [-> | Ha], Hb as [-> | Hb]; auto.
  - exfalso. apply Hnotin. rewrite E. now apply in_map.
  - exfalso. apply Hnotin. rewrite <- E. now apply in_map.
Qed.

(** Where the [_id]s of a source are distinct, what the source records for
    an item is the score of the item's one document. *)
Lemma ScoreBySource_unique (sel : Hit.t -> option Q) (l : list Hit.t) (h : Hit.t) (i : ObjectId) :
  (forall h', In h' l -> exists q, sel h' = Some q) ->
  NoDup (map Hit._id l) -> In h l -> Hit._id h = i ->
  ScoreBySource sel l i = sel h.
Proof.
  intros Hsel Hnd Hh Hid.
  destruct (ScoreBySource_present sel l i Hsel) as [c Hc].
  { rewrite <- Hid. now apply in_map. }
  rewrite Hc. apply ScoreBySource_attained in Hc. destruct Hc as (h' & Hh' & Hid' & <-).
  f_equal. eapply NoDup_map_In_eq; eauto. congruence.
Qed.

(** C2.  The score of a document of the result is the sum of what the two
    sources record for its [_id].  A source in which the item does not occur
    records nothing for it and adds exactly 0; a source in which it occurs
    records a score for it, and that score is the term it adds; where the
    source lists the item once, it is the score of that candidate. *)
Theorem combined_score_is_sum (vector_priority text_priority limit : Z)
    (neighbours matches : list Movie.t) (out : list Fused.t) (d : Fused.t) :
  pipeline vector_priority text_priority limit neighbours matches = Ok out ->
  In d out ->
  exists v t,
    vector_branch vector_priority limit neighbours = Ok v /\
    text_branch text_priority limit matches = Ok t /\
    let vs := ScoreBySource Hit.vs_score v (Fused._id d) in
    let ts := ScoreBySource Hit.ts_score t (Fused._id d) in
    Fused.score d = (ifNull vs 0 + ifNull ts 0)%Q /\
    (~ In (Fused._id d) (map Hit._id v) -> vs = None /\ ifNull vs 0 = 0%Q) /\
    (~ In (Fused._id d) (map Hit._id t) -> ts = None /\ ifNull ts 0 = 0%Q) /\
    (In (Fused._id d) (map Hit._id v) -> exists q, vs = Some q /\ ifNull vs 0 = q) /\
    (In (Fused._id d) (map Hit._id t) -> exists q, ts = Some q /\ ifNull ts 0 = q) /\
    (NoDup (map Hit._id v) ->
     forall h, In h v -> Hit._id h = Fused._id d -> vs = Hit.vs_score h) /\
    (NoDup (map Hit._id t) ->
     forall h, In h t -> Hit._id h = Fused._id d -> ts = Hit.ts_score h).
Proof.
  intros H Hd.
  destruct (pipeline_In _ _ _ _ _ _ _ H Hd) as (u & g & Hu & Hg & ->).
  destruct (union_with_branches _ _ _ _ _ _ Hu) as (v & t & Hv & Ht & ->).
  exists v, t. split; [exact Hv|]. split; [exact Ht|]. cbv zeta.
  destruct (combine_search_results_scores _ _ Hg) as [Hvs Hts].
  destruct (branches_ScoreBySource _ _ _ _ _ _ _ (Hit._id g) Hv Ht) as [Ev Et].
  rewrite Ev in Hvs. rewrite Et in Hts. simpl.
  split; [now rewrite Hvs, Hts|].
  split; [intros Habs; now rewrite (ScoreBySource_absent _ _ _ Habs)|].
  split; [intros Habs; now rewrite (ScoreBySource_absent _ _ _ Habs)|].
  apply vector_branch_Ok in Hv. apply text_branch_Ok in Ht.
  destruct Hv as [_ ->], Ht as [_ ->].
  split; [intros Hin|].
  { destruct (ScoreBySource_present Hit.vs_score _ _
                (fun h Hh => proj2 (hits_from_vs _ _ _ h Hh)) Hin) as [c Hc].
    exists c. now rewrite Hc. }
  split; [intros Hin|].
  { destruct (ScoreBySource_present Hit.ts_score _ _
                (fun h Hh => proj2 (hits_from_ts _ _ _ h Hh)) Hin) as [c Hc].
    exists c. now rewrite Hc. }
  split; intros Hnd h Hh Hid.
  - apply ScoreBySource_unique; auto.
    intros h' Hh'. now apply hits_from_vs in Hh'.
  - apply ScoreBySource_unique; auto.
    intros h' Hh'. now apply hits_from_ts in Hh'.
Qed.

Lemma combined_score_is_sum_witness :
  let out := [Fused.mk 1%N (Some "Alpha"%string) None (Some 1999) (3 # 2);
              Fused.mk 2%N (Some "Beta"%string) (Some "b"%string) None (3 # 2);
              Fused.mk 3%N None None None (1 # 3)] in
  let d := Fused.mk 3%N None None None (1 # 3) in
  pipeline 0 0 3 [Sample.A; Sample.B; Sample.C] [Sample.B; Sample.A] = Ok out /\
  In d out /\
  exists v t,
    vector_branch 0 3 [Sample.A; Sample.B; Sample.C] = Ok v /\
    text_branch 0 3 [Sample.B; Sample.A] = Ok t /\
    let vs := ScoreBySource Hit.vs_score v (Fused._id d) in
    let ts := ScoreBySource Hit.ts_score t (Fused._id d) in
    Fused.score d = (ifNull vs 0 + ifNull ts 0)%Q /\
    (~ In (Fused._id d) (map Hit._id v) -> vs = None /\ ifNull vs 0 = 0%Q) /\
    (~ In (Fused._id d) (map Hit._id t) -> ts = None /\ ifNull ts 0 = 0%Q) /\
    (In (Fused._id d) (map Hit._id v) -> exists q, vs = Some q /\ ifNull vs 0 = q) /\
    (In (Fused._id d) (map Hit._id t) -> exists q, ts = Some q /\ ifNull ts 0 = q) /\
    (NoDup (map Hit._id v) ->
     forall h, In h v -> Hit._id h = Fused._id d -> vs = Hit.vs_score h) /\
    (NoDup (map Hit._id t) ->
     forall h, In h t -> Hit._id h = Fused._id d -> ts = Hit.ts_score h).
Proof.
  intros out d.
  assert (H : pipeline 0 0 3 [Sample.A; Sample.B; Sample.C] [Sample.B; Sample.A] = Ok out)
    by reflexivity.
  assert (Hd : In d out) by (right; right; left; reflexivity).
  split; [exact H|]. split; [exact Hd|].
  exact (combined_score_is_sum 0 0 3 _ _ out d H Hd).
Defined.



(** ** No duplicate and no fabricated item *)

Lemma project_combined_results_ids (gs : list Hit.t) :
  map Fused._id (map project_combined_results gs) = map Hit._id gs.
Proof. rewrite map_map. reflexivity. Qed.

(** C7.  No [_id] occurs twice in the result: an item both sources found is
    one document of the result. *)
Theorem result_has_no_duplicate (vector_priority text_priority limit : Z)
    (neighbours matches : list Movie.t) (out : list Fused.t) :
  pipeline vector_priority text_priority limit neighbours matches = Ok out ->
  NoDup (map Fused._id out).
Proof.
  intros H. apply pipeline_Ok in H. destruct H as (f & Hf & ->).
  apply fused_Ok in Hf. destruct Hf as (u & _ & ->).
  apply firstn_NoDup_map.
  eapply Permutation_NoDup.
  - apply Permutation_map. symmetry. apply sort_results_Permutation.
  - rewrite project_combined_results_ids. apply combine_search_results_NoDup.
Qed.

Lemma result_has_no_duplicate_witness :
  let out := [Fused.mk 1%N (Some "Alpha"%string) None (Some 1999) (3 # 2);
              Fused.mk 2%N (Some "Beta"%string) (Some "b"%string) None (3 # 2);
              Fused.mk 3%N None None None (1 # 3)] in
  pipeline 0 0 3 [Sample.A; Sample.B; Sample.C] [Sample.B; Sample.A] = Ok out /\
  NoDup (map Fused._id out).
Proof.
  intros out.
  assert (H : pipeline 0 0 3 [Sample.A; Sample.B; Sample.C] [Sample.B; Sample.A] = Ok out)
    by reflexivity.
  split; [exact H|].
  exact (result_has_no_duplicate 0 0 3 _ _ out H).
Defined.

(** C8.  Every [_id] of the result is the [_id] of a movie one of the two
    searches returned. *)
Theorem result_items_were_retrieved (vector_priority text_priority limit : Z)
    (neighbours matches : list Movie.t) (out : list Fused.t) (d : Fused.t) :
  pipeline vector_priority text_priority limit neighbours matches = Ok out ->
  In d out ->
  In (Fused._id d) (map Movie._id neighbours ++ map Movie._id matches).
Proof.
  intros H Hd.
  destruct (pipeline_In _ _ _ _ _ _ _ H Hd) as (u & g & Hu & Hg & ->).
  apply union_with_Ok in Hu. destruct Hu as [_ ->]. simpl.
  apply (in_map Hit._id) in Hg.
  apply (proj1 (combine_search_results_ids _ _)) in Hg.
  rewrite map_app, !hits_from_ids, <- !firstn_map in Hg.
  apply in_app_iff in Hg. apply in_app_iff.
  destruct Hg as [Hg | Hg]; apply firstn_In in Hg; tauto.
Qed.

Lemma result_items_were_retrieved_witness :
  let out := [Fused.mk 2%N (Some "Beta"%string) (Some "b"%string) None (1 # 2)] in
  let d := Fused.mk 2%N (Some "Beta"%string) (Some "b"%string) None (1 # 2) in
  pipeline 1 1 1 [Sample.B; Sample.A; Sample.C] [Sample.A; Sample.B] = Ok out /\
  In d out /\
  In (Fused._id d)
     (map Movie._id [Sample.B; Sample.A; Sample.C] ++ map Movie._id [Sample.A; Sample.B]).
Proof.
  intros out d.
  assert (H : pipeline 1 1 1 [Sample.B; Sample.A; Sample.C] [Sample.A; Sample.B] = Ok out)
    by reflexivity.
  assert (Hd : In d out) by (left; reflexivity).
  split; [exact H|]. split; [exact Hd|].
  exact (result_items_were_retrieved 1 1 1 _ _ out d H Hd).
Defined.

(** ** The order of the result *)


Lemma StronglySorted_app_cross {A : Type} (R : A -> A -> Prop) (l1 l2 : list A) :
  StronglySorted R (l1 ++ l2) ->
  forall x y, In x l1 -> In y l2 -> R x y.
Proof.
  induction l1 as [|a l1 IH]; simpl; intros H x y Hx Hy; [contradiction|].
  inversion H as [|? ? Hs Hall]; subst.
  destruct Hx as [<- | Hx].
  - rewrite Forall_forall in Hall. apply Hall. apply in_or_app. now right.
  - now apply IH.
Qed.



(** What [pipeline] computes is one of the results the server may return. *)
Lemma pipeline_may_return (vector_priority text_priority limit : Z)
    (neighbours matches : list Movie.t) (out : list Fused.t) :
  pipeline vector_priority text_priority limit neighbours matches = Ok out ->
  may_return vector_priority text_priority limit neighbours matches out.
Proof.
  unfold pipeline. intros H. inv_bind H.
  apply fused_Ok in Ha. destruct Ha as (u & Hu & ->).
  apply union_with_branches in Hu. destruct Hu as (v & t & Hv & Ht & ->).
  exists v, t, (v ++ t),
    (sort_results (map project_combined_results (combine_search_results (v ++ t)))).
  split; [exact Hv|]. split; [exact Ht|]. split; [reflexivity|].
  split; [|exact H]. split.
  - symmetry. apply sort_results_Permutation.
  - apply sort_results_StronglySorted.
Qed.






(** ** How many candidates a source hands over *)

(** C4, as the pipeline has it.  Each source hands over at most [limit]
    candidates, the best [limit] of its hits: [$vectorSearch] is given
    [numCandidates = limit * overrequest_factor] nearest neighbours to
    consider and [limit] documents to return, and the text search is cut by
    [$limit: limit]. *)
Theorem sources_are_capped_at_limit (vector_priority text_priority limit : Z)
    (neighbours matches : list Movie.t) (v t : list Hit.t) :
  vector_branch vector_priority limit neighbours = Ok v ->
  text_branch text_priority limit matches = Ok t ->
  vector_search limit neighbours =
    vectorSearch (limit * 10) limit neighbours /\
  map Hit._id v = map Movie._id (firstn (Z.to_nat limit) neighbours) /\
  map Hit._id t = map Movie._id (firstn (Z.to_nat limit) matches) /\
  (Z.of_nat (List.length v) <= limit) /\
  (Z.of_nat (List.length t) <= limit).
Proof.
  intros Hv Ht.
  apply vector_branch_Ok in Hv. apply text_branch_Ok in Ht.
  destruct Hv as [Hl ->], Ht as [_ ->].
  split; [reflexivity|].
  rewrite !hits_from_ids, !hits_from_length.
  split; [reflexivity|]. split; [reflexivity|].
  pose proof (firstn_le_length (Z.to_nat limit) neighbours).
  pose proof (firstn_le_length (Z.to_nat limit) matches).
  split; lia.
Qed.

Lemma sources_are_capped_at_limit_witness :
  let v := [Hit.mk 2%N (Some (1 # 2)) None (Some "Beta"%string) (Some "b"%string) None] in
  let t := [Hit.mk 1%N None (Some (1 # 2)) (Some "Alpha"%string) None (Some 1999)] in
  vector_branch 1 1 [Sample.B; Sample.A; Sample.C] = Ok v /\
  text_branch 1 1 [Sample.A; Sample.B] = Ok t /\
  vector_search 1 [Sample.B; Sample.A; Sample.C] =
    vectorSearch (1 * 10) 1 [Sample.B; Sample.A; Sample.C] /\
  map Hit._id v = map Movie._id (firstn (Z.to_nat 1) [Sample.B; Sample.A; Sample.C]) /\
  map Hit._id t = map Movie._id (firstn (Z.to_nat 1) [Sample.A; Sample.B]) /\
  (Z.of_nat (List.length v) <= 1) /\
  (Z.of_nat (List.length t) <= 1).
Proof.
  intros v t.
  assert (Hv : vector_branch 1 1 [Sample.B; Sample.A; Sample.C] = Ok v) by reflexivity.
  assert (Ht : text_branch 1 1 [Sample.A; Sample.B] = Ok t) by reflexivity.
  split; [exact Hv|]. split; [exact Ht|].
  exact (sources_are_capped_at_limit 1 1 1 _ _ v t Hv Ht).
Defined.

(** C4, as stated, fails.  With [limit = 1] a cap of [limit * 10] would let
    all three hits of the vector search and both hits of the text search
    through; each branch hands over one candidate. *)
Lemma sources_do_not_hand_over_ten_times_limit :
  exists v t,
    vector_branch 1 1 [Sample.B; Sample.A; Sample.C] = Ok v /\
    text_branch 1 1 [Sample.A; Sample.B] = Ok t /\
    List.length v <> Nat.min 3 (Z.to_nat (1 * overrequest_factor)) /\
    List.length t <> Nat.min 2 (Z.to_nat (1 * overrequest_factor)) /\
    List.length v = 1%nat /\ List.length t = 1%nat.
Proof.
  eexists. eexists. split; [reflexivity|]. split; [reflexivity|].
  repeat split; simpl; discriminate.
Qed.

(** ** A limit that is not positive *)

Lemma nonpositive_limit_rejected_by_search (vector_priority text_priority limit : Z)
    (neighbours matches : list Movie.t) :
  limit <= 0 ->
  pipeline vector_priority text_priority limit neighbours matches = Error InvalidVectorSearch.
Proof.
  intros Hl.
  unfold pipeline, fused, union_with, vector_branch, vector_search, vectorSearch.
  destruct (Z.ltb_spec limit 1); [reflexivity | lia].
Qed.

Lemma limit_rejected_by_search (vector_priority text_priority limit : Z)
    (neighbours matches : list Movie.t) :
  limit < 1 \/ 1000 < limit ->
  pipeline vector_priority text_priority limit neighbours matches = Error InvalidVectorSearch.
Proof.
  intros Hl. unfold pipeline, fused, union_with, vector_branch.
  now rewrite (vector_search_rejects _ _ Hl).
Qed.

(** C5, as the pipeline has it.  With a limit of 0 or less the server rejects
    [limit_results], whatever its input, and the pipeline returns no list: it
    fails, whatever the two searches found. *)
Theorem nonpositive_limit_is_rejected (vector_priority text_priority limit : Z)
    (neighbours matches : list Movie.t) (input : list Fused.t) :
  limit <= 0 ->
  limit_results limit input = Error LimitMustBePositive /\
  (exists e, pipeline vector_priority text_priority limit neighbours matches = Error e) /\
  (forall out, pipeline vector_priority text_priority limit neighbours matches <> Ok out).
Proof.
  intros Hl.
  pose proof (nonpositive_limit_rejected_by_search vector_priority text_priority limit
                neighbours matches Hl) as E.
  split.
  - unfold limit_results. destruct (Z.ltb_spec limit 1); [reflexivity | lia].
  - split; [now exists InvalidVectorSearch|]. intros out. now rewrite E.
Qed.

Lemma nonpositive_limit_is_rejected_witness :
  0 <= 0 /\
  limit_results 0 (@nil Fused.t) = Error LimitMustBePositive /\
  (exists e, pipeline 1 1 0 [Sample.A] [Sample.A] = Error e) /\
  (forall out, pipeline 1 1 0 [Sample.A] [Sample.A] <> Ok out).
Proof.
  split; [lia|].
  apply (nonpositive_limit_is_rejected 1 1 0 [Sample.A] [Sample.A] []). lia.
Defined.

(** C5, as stated, fails.  With [limit = 0] and a hit in each source the
    pipeline does not return the empty list; it fails. *)
Lemma zero_limit_is_an_error :
  pipeline 1 1 0 [Sample.A] [Sample.A] <> Ok [] /\
  exists e, pipeline 1 1 0 [Sample.A] [Sample.A] = Error e.
Proof.
  split; [discriminate | eexists; reflexivity].
Qed.

(** ** Raising a priority *)

Lemma opt_le_named (name wanted : score_field_name) (q' q : Q) :
  (q' <= q)%Q -> opt_le (named name wanted q') (named name wanted q).
Proof. intros H. unfold named. now destruct (score_field_name_eqb name wanted). Qed.

Lemma hits_from_not_above (name : score_field_name) (priority priority' : Z)
    (found : list Movie.t) :
  0 <= priority <= priority' ->
  forall i : Z, 0 <= i ->
    Forall2 not_above (hits_from name priority' i found) (hits_from name priority i found).
Proof.
  intros Hp. induction found as [|m found IH]; intros i Hi; simpl; constructor.
  - assert (Hq : (1 / inject_Z (denominator priority' i) <=
                  1 / inject_Z (denominator priority i))%Q).
    { rewrite !reciprocal_eq by (unfold denominator; lia).
      apply reciprocal_antitone; unfold denominator; lia. }
    unfold not_above, hit_of; simpl.
    split; [reflexivity|]. split; now apply opt_le_named.
  - apply IH. lia.
Qed.

Lemma occurrences_not_above (sel : Hit.t -> option Q) (i : ObjectId) (l' l : list Hit.t) :
  (forall h' h, not_above h' h -> opt_le (sel h') (sel h)) ->
  Forall2 not_above l' l ->
  Forall2 opt_le (map sel (occurrences i l')) (map sel (occurrences i l)).
Proof.
  intros Hsel. induction 1 as [|h' h l' l Hh _ IH]; simpl; [constructor|].
  destruct Hh as (Hid & Hvs & Hts). rewrite Hid.
  destruct (N.eqb (Hit._id h) i); simpl; [|exact IH].
  constructor; [|exact IH]. apply Hsel. now repeat split.
Qed.

Lemma ScoreBySource_not_above (l' l : list Hit.t) (i : ObjectId) :
  Forall2 not_above l' l ->
  opt_le (ScoreBySource Hit.vs_score l' i) (ScoreBySource Hit.vs_score l i) /\
  opt_le (ScoreBySource Hit.ts_score l' i) (ScoreBySource Hit.ts_score l i).
Proof.
  intros H. unfold ScoreBySource.
  split; (apply fold_max_acc_monotone; [|exact I]);
    apply occurrences_not_above; auto; intros h' h (_ & Hvs & Hts); assumption.
Qed.

(** C9.  Raise the priority of a source (the other one raised too, or held
    fixed) and run the two searches again on the same hits: in the group of
    any item neither source's term has grown, and the sum has not grown, so
    an item that is in both results has no greater score in the second one. *)
Theorem raising_a_priority_never_helps
    (vector_priority vector_priority' text_priority text_priority' limit : Z)
    (neighbours matches : list Movie.t) (u u' : list Hit.t) (g g' : Hit.t) :
  0 <= vector_priority <= vector_priority' ->
  0 <= text_priority <= text_priority' ->
  union_with vector_priority text_priority limit neighbours matches = Ok u ->
  union_with vector_priority' text_priority' limit neighbours matches = Ok u' ->
  In g (combine_search_results u) ->
  In g' (combine_search_results u') ->
  Hit._id g' = Hit._id g ->
  (ifNull (Hit.vs_score g') 0 <= ifNull (Hit.vs_score g) 0)%Q /\
  (ifNull (Hit.ts_score g') 0 <= ifNull (Hit.ts_score g) 0)%Q /\
  (Fused.score (project_combined_results g') <=
   Fused.score (project_combined_results g))%Q /\
  (forall out out' d d',
      pipeline vector_priority text_priority limit neighbours matches = Ok out ->
      pipeline vector_priority' text_priority' limit neighbours matches = Ok out' ->
      In d out -> In d' out' -> Fused._id d' = Fused._id d ->
      (Fused.score d' <= Fused.score d)%Q).
Proof.
  intros Hv Ht Hu Hu' Hg Hg' Hid.
  assert (Hgroups : forall g0 g0' : Hit.t,
             In g0 (combine_search_results u) ->
             In g0' (combine_search_results u') ->
             Hit._id g0' = Hit._id g0 ->
             (ifNull (Hit.vs_score g0') 0 <= ifNull (Hit.vs_score g0) 0)%Q /\
             (ifNull (Hit.ts_score g0') 0 <= ifNull (Hit.ts_score g0) 0)%Q).
  { intros g0 g0' H0 H0' E.
    apply combine_search_results_scores in H0, H0'.
    destruct H0 as [-> ->], H0' as [-> ->]. rewrite E.
    apply union_with_Ok in Hu, Hu'. destruct Hu as [_ ->], Hu' as [_ ->].
    assert (HF : Forall2 not_above
              (hits_from vs_score vector_priority' 0 (firstn (Z.to_nat limit) neighbours) ++
               hits_from ts_score text_priority' 0 (firstn (Z.to_nat limit) matches))
              (hits_from vs_score vector_priority 0 (firstn (Z.to_nat limit) neighbours) ++
               hits_from ts_score text_priority 0 (firstn (Z.to_nat limit) matches))).
    { apply Forall2_app; apply hits_from_not_above; lia. }
    destruct (ScoreBySource_not_above _ _ (Hit._id g0) HF) as [Hvs Hts].
    split; now apply ifNull_monotone. }
  destruct (Hgroups g g' Hg Hg' Hid) as [Hvs Hts].
  split; [exact Hvs|]. split; [exact Hts|].
  split; [simpl; now apply Qplus_le_compat|].
  intros out out' d d' Ho Ho' Hd Hd' E.
  destruct (pipeline_In _ _ _ _ _ _ _ Ho Hd) as (u0 & g0 & Hu0 & Hg0 & ->).
  destruct (pipeline_In _ _ _ _ _ _ _ Ho' Hd') as (u0' & g0' & Hu0' & Hg0' & ->).
  rewrite Hu in Hu0. rewrite Hu' in Hu0'. inv_Ok Hu0. inv_Ok Hu0'.
  simpl in E. destruct (Hgroups g0 g0' Hg0 Hg0' E) as [Hvs0 Hts0].
  simpl. now apply Qplus_le_compat.
Qed.

Lemma raising_a_priority_never_helps_witness :
  let u := [Hit.mk 1%N (Some (1 # 1)) None (Some "Alpha"%string) None (Some 1999);
            Hit.mk 2%N (Some (1 # 2)) None (Some "Beta"%string) (Some "b"%string) None;
            Hit.mk 2%N None (Some (1 # 2)) (Some "Beta"%string) (Some "b"%string) None] in
  let u' := [Hit.mk 1%N (Some (1 # 4)) None (Some "Alpha"%string) None (Some 1999);
             Hit.mk 2%N (Some (1 # 5)) None (Some "Beta"%string) (Some "b"%string) None;
             Hit.mk 2%N None (Some (1 # 2)) (Some "Beta"%string) (Some "b"%string) None] in
  let g := Hit.mk 2%N (Some (1 # 2)) (Some (1 # 2)) (Some "Beta"%string) (Some "b"%string) None in
  let g' := Hit.mk 2%N (Some (1 # 5)) (Some (1 # 2)) (Some "Beta"%string) (Some "b"%string) None in
  0 <= 0 <= 3 /\ 0 <= 1 <= 1 /\
  union_with 0 1 5 [Sample.A; Sample.B] [Sample.B] = Ok u /\
  union_with 3 1 5 [Sample.A; Sample.B] [Sample.B] = Ok u' /\
  In g (combine_search_results u) /\
  In g' (combine_search_results u') /\
  Hit._id g' = Hit._id g /\
  (ifNull (Hit.vs_score g') 0 <= ifNull (Hit.vs_score g) 0)%Q /\
  (ifNull (Hit.ts_score g') 0 <= ifNull (Hit.ts_score g) 0)%Q /\
  (Fused.score (project_combined_results g') <=
   Fused.score (project_combined_results g))%Q /\
  (forall out out' d d',
      pipeline 0 1 5 [Sample.A; Sample.B] [Sample.B] = Ok out ->
      pipeline 3 1 5 [Sample.A; Sample.B] [Sample.B] = Ok out' ->
      In d out -> In d' out' -> Fused._id d' = Fused._id d ->
      (Fused.score d' <= Fused.score d)%Q).
Proof.
  intros u u' g g'.
  assert (Hv : 0 <= 0 <= 3) by lia.
  assert (Ht : 0 <= 1 <= 1) by lia.
  assert (Hu : union_with 0 1 5 [Sample.A; Sample.B] [Sample.B] = Ok u) by reflexivity.
  assert (Hu' : union_with 3 1 5 [Sample.A; Sample.B] [Sample.B] = Ok u') by reflexivity.
  assert (Hg : In g (combine_search_results u)) by (right; left; reflexivity).
  assert (Hg' : In g' (combine_search_results u')) by (right; left; reflexivity).
  assert (Hid : Hit._id g' = Hit._id g) by reflexivity.
  split; [exact Hv|]. split; [exact Ht|]. split; [exact Hu|]. split; [exact Hu'|].
  split; [exact Hg|]. split; [exact Hg'|]. split; [exact Hid|].
  exact (raising_a_priority_never_helps 0 3 1 1 5 _ _ u u' g g' Hv Ht Hu Hu' Hg Hg' Hid).
Defined.

(** ** Scores are positive *)

Lemma hit_of_positive (name : score_field_name) (priority i : Z) (m : Movie.t) :
  0 <= priority -> 0 <= i ->
  forall (sel : Hit.t -> option Q) (q : Q),
    (sel = Hit.vs_score \/ sel = Hit.ts_score) ->
    sel (hit_of name priority i m) = Some q -> (0 < q <= 1)%Q.
Proof.
  intros Hp Hi sel q Hsel Hq.
  assert (Hd : 0 < denominator priority i) by (unfold denominator; lia).
  unfold hit_of in Hq. rewrite (reciprocal_eq _ Hd) in Hq.
  destruct Hsel as [-> | ->], name; simpl in Hq; try discriminate; inv_Ok Hq;
    (split; [apply reciprocal_positive | apply reciprocal_le_1]).
Qed.

Lemma union_scores_positive (vector_priority text_priority limit : Z)
    (neighbours matches : list Movie.t) (u : list Hit.t) :
  0 <= vector_priority -> 0 <= text_priority ->
  union_with vector_priority text_priority limit neighbours matches = Ok u ->
  forall h, In h u ->
    (forall q, Hit.vs_score h = Some q -> (0 < q <= 1)%Q) /\
    (forall q, Hit.ts_score h = Some q -> (0 < q <= 1)%Q) /\
    (exists q, Hit.vs_score h = Some q \/ Hit.ts_score h = Some q).
Proof.
  intros Hv Ht Hu h Hh.
  apply union_with_Ok in Hu. destruct Hu as [_ ->].
  apply in_app_iff in Hh. destruct Hh as [Hh | Hh].
  - pose proof (hits_from_vs _ _ _ _ Hh) as [_ [q0 Hq0]].
    apply hits_from_In in Hh. destruct Hh as (n & m & _ & ->).
    split; [|split].
    + intros q Hq.
      apply (hit_of_positive vs_score vector_priority (0 + Z.of_nat n) m
               Hv ltac:(lia) Hit.vs_score q (or_introl eq_refl) Hq).
    + intros q Hq. discriminate.
    + exists q0. now left.
  - pose proof (hits_from_ts _ _ _ _ Hh) as [_ [q0 Hq0]].
    apply hits_from_In in Hh. destruct Hh as (n & m & _ & ->).
    split; [|split].
    + intros q Hq. discriminate.
    + intros q Hq.
      apply (hit_of_positive ts_score text_priority (0 + Z.of_nat n) m
               Ht ltac:(lia) Hit.ts_score q (or_intror eq_refl) Hq).
    + exists q0. now right.
Qed.

Lemma ifNull_nonnegative (sel : Hit.t -> option Q) (u : list Hit.t) (i : ObjectId) :
  (forall h q, In h u -> sel h = Some q -> (0 < q)%Q) ->
  (0 <= ifNull (ScoreBySource sel u i) 0)%Q.
Proof.
  intros Hpos. destruct (ScoreBySource sel u i) as [c|] eqn:E; simpl.
  - apply ScoreBySource_attained in E. destruct E as (h & Hh & _ & Hc).
    apply Qlt_le_weak. eauto.
  - apply Qle_refl.
Qed.

Lemma ifNull_positive (sel : Hit.t -> option Q) (u : list Hit.t) (h : Hit.t) (q : Q) :
  In h u -> sel h = Some q -> (0 < q)%Q ->
  (0 < ifNull (ScoreBySource sel u (Hit._id h)) 0)%Q.
Proof.
  intros Hh Hq Hpos.
  destruct (ScoreBySource_upper sel u h q Hh Hq) as (c & -> & Hle). simpl.
  eapply Qlt_le_trans; eassumption.
Qed.

(** C10.  With a rank and a priority that are not negative the divisor
    [rank + priority + 1] is at least 1: [$divide] does not fail and the score
    is greater than 0 and at most 1.  With priorities that are not negative
    the pipeline never fails on a division, and every document of its result
    has a score greater than 0. *)
Theorem scores_are_positive (priority : Z) (name : score_field_name) (m : Movie.t) (r : Z)
    (vector_priority text_priority limit : Z) (neighbours matches : list Movie.t) :
  0 <= r -> 0 <= priority -> 0 <= vector_priority -> 0 <= text_priority ->
  1 <= r + priority + 1 /\
  (exists s,
      make_compute_score_doc priority name (Ranked.mk m r) = Ok s /\
      (0 < Scored.value s)%Q /\ (Scored.value s <= 1)%Q) /\
  pipeline vector_priority text_priority limit neighbours matches <> Error DivideByZero /\
  (forall out d,
      pipeline vector_priority text_priority limit neighbours matches = Ok out ->
      In d out -> (0 < Fused.score d)%Q).
Proof.
  intros Hr Hp Hv Ht.
  split; [lia|]. split; [|split].
  - eexists. split; [apply make_compute_score_doc_Ok; unfold denominator; simpl; lia|].
    simpl. split; [apply reciprocal_positive | apply reciprocal_le_1].
  - destruct (Z.le_gt_cases 1 limit) as [Hl | Hl];
      [destruct (Z.le_gt_cases limit 1000) as [Hm | Hm]|].
    + destruct (pipeline_total _ _ _ neighbours matches (conj Hl Hm) Hv Ht) as [out ->].
      discriminate.
    + rewrite limit_rejected_by_search by lia. discriminate.
    + rewrite limit_rejected_by_search by lia. discriminate.
  - intros out d H Hd.
    destruct (pipeline_In _ _ _ _ _ _ _ H Hd) as (u & g & Hu & Hg & ->).
    pose proof (union_scores_positive _ _ _ _ _ _ Hv Ht Hu) as Hpos.
    destruct (combine_search_results_scores _ _ Hg) as [Hvs Hts].
    simpl. rewrite Hvs, Hts.
    assert (Hin : In (Hit._id g) (map Hit._id u)).
    { apply combine_search_results_ids. now apply in_map. }
    apply in_map_iff in Hin. destruct Hin as (h & Hid & Hh).
    destruct (Hpos h Hh) as (Pv & Pt & q & [Hq | Hq]); rewrite <- Hid.
    + apply Qlt_le_trans with (ifNull (ScoreBySource Hit.vs_score u (Hit._id h)) 0 + 0)%Q.
      * rewrite Qplus_0_r. eapply ifNull_positive; eauto. now apply Pv.
      * apply Qplus_le_compat; [apply Qle_refl|].
        apply ifNull_nonnegative. intros h0 q0 Hh0 Hq0.
        destruct (Hpos h0 Hh0) as (_ & Pt0 & _). now apply Pt0.
    + apply Qlt_le_trans with (0 + ifNull (ScoreBySource Hit.ts_score u (Hit._id h)) 0)%Q.
      * rewrite Qplus_0_l. eapply ifNull_positive; eauto. now apply Pt.
      * apply Qplus_le_compat; [|apply Qle_refl].
        apply ifNull_nonnegative. intros h0 q0 Hh0 Hq0.
        destruct (Hpos h0 Hh0) as (Pv0 & _ & _). now apply Pv0.
Qed.

Lemma scores_are_positive_witness :
  0 <= 2 /\ 0 <= 1 /\ 0 <= 0 /\ 0 <= 0 /\
  1 <= 2 + 1 + 1 /\
  (exists s,
      make_compute_score_doc 1 vs_score (Ranked.mk Sample.C 2) = Ok s /\
      (0 < Scored.value s)%Q /\ (Scored.value s <= 1)%Q) /\
  pipeline 0 0 3 [Sample.A; Sample.B; Sample.C] [Sample.B; Sample.A] <> Error DivideByZero /\
  (forall out d,
      pipeline 0 0 3 [Sample.A; Sample.B; Sample.C] [Sample.B; Sample.A] = Ok out ->
      In d out -> (0 < Fused.score d)%Q).
Proof.
  split; [lia|]. split; [lia|]. split; [lia|]. split; [lia|].
  apply (scores_are_positive 1 vs_score Sample.C 2 0 0 3
           [Sample.A; Sample.B; Sample.C] [Sample.B; Sample.A]); lia.
Defined.

(** * Further properties of the pipeline *)

(** ** The score of an item in closed form *)

Lemma position_None (i : ObjectId) (l : list Movie.t) :
  position i l = None <-> ~ In i (map Movie._id l).
Proof.
  induction l as [|m l IH]; simpl; [tauto|].
  destruct (N.eqb_spec (Movie._id m) i) as [E | E].
  - split; [discriminate | intros H; exfalso; apply H; now left].
  - destruct (position i l) as [n|]; simpl.
    + split; [discriminate|]. intros H. exfalso.
      destruct IH as [_ IH]. assert (E' : Some n = None) by (apply IH; tauto).
      discriminate.
    + split; [|reflexivity]. intros _ [H | H]; [congruence|]. now apply (proj1 IH).
Qed.

Lemma position_Some (i : ObjectId) (l : list Movie.t) (n : nat) :
  position i l = Some n ->
  exists m, nth_error l n = Some m /\ Movie._id m = i.
Proof.
  revert n. induction l as [|m l IH]; simpl; intros n H; [discriminate|].
  destruct (N.eqb_spec (Movie._id m) i) as [E | E].
  - inv_Ok H. now exists m.
  - destruct (position i l) as [k|]; simpl in H; [|discriminate].
    inv_Ok H. apply (IH k). reflexivity.
Qed.

(** Where the [_id]s of a hit list are distinct, the position of a movie's
    [_id] is the movie's index. *)
Lemma position_nth (l : list Movie.t) (n : nat) (m : Movie.t) :
  NoDup (map Movie._id l) -> nth_error l n = Some m ->
  position (Movie._id m) l = Some n.
Proof.
  revert n. induction l as [|m0 l IH]; intros n Hnd Hn.
  - destruct n; discriminate.
  - inversion Hnd as [|? ? Hnotin Hrest]; subst. simpl.
    destruct n as [|n]; simpl in Hn.
    + inv_Ok Hn. now rewrite N.eqb_refl.
    + destruct (N.eqb_spec (Movie._id m0) (Movie._id m)) as [E | E].
      * exfalso. apply Hnotin. rewrite E. apply in_map. eapply nth_error_In; eauto.
      * now rewrite (IH n Hrest Hn).
Qed.

Lemma score_of_hit_of (name : score_field_name) (priority i : Z) (m : Movie.t) :
  score_of name (hit_of name priority i m) =
    Some (1 / inject_Z (denominator priority i))%Q.
Proof. destruct name; reflexivity. Qed.

(** What a branch with distinct [_id]s records for an item: the score of the
    item's position, or nothing. *)
Lemma ScoreBySource_hits_from (name : score_field_name) (priority : Z) (l : list Movie.t) :
  NoDup (map Movie._id l) ->
  forall (k : Z) (i : ObjectId),
    ScoreBySource (score_of name) (hits_from name priority k l) i =
      option_map (fun n => (1 / inject_Z (denominator priority (k + Z.of_nat n)))%Q)
                 (position i l).
Proof.
  induction l as [|m l IH]; intros Hnd k i; [reflexivity|].
  inversion Hnd as [|? ? Hnotin Hrest]; subst.
  unfold ScoreBySource, occurrences. simpl.
  destruct (N.eqb_spec (Movie._id m) i) as [E | E].
  - subst i. fold (occurrences (Movie._id m) (hits_from name priority (k + 1) l)).
    rewrite occurrences_absent by now rewrite hits_from_ids.
    simpl. rewrite score_of_hit_of. now rewrite Z.add_0_r.
  - fold (occurrences i (hits_from name priority (k + 1) l)).
    fold (ScoreBySource (score_of name) (hits_from name priority (k + 1) l) i).
    rewrite (IH Hrest). destruct (position i l) as [n|]; simpl; [|reflexivity].
    do 4 f_equal. lia.
Qed.

Lemma contribution_option_map (priority : Z) (pos : option nat) :
  ifNull (option_map (fun n => (1 / inject_Z (denominator priority (0 + Z.of_nat n)))%Q) pos) 0
  = contribution priority pos.
Proof. destruct pos as [n|]; reflexivity. Qed.

(** The score of a group of the union, when neither source lists an [_id]
    twice. *)
Lemma group_score_closed_form (vector_priority text_priority : Z)
    (found_v found_t : list Movie.t) (g : Hit.t) :
  NoDup (map Movie._id found_v) -> NoDup (map Movie._id found_t) ->
  In g (combine_search_results
          (hits_from vs_score vector_priority 0 found_v ++
           hits_from ts_score text_priority 0 found_t)) ->
  Fused.score (project_combined_results g) =
    (contribution vector_priority (position (Hit._id g) found_v) +
     contribution text_priority (position (Hit._id g) found_t))%Q.
Proof.
  intros Hv Ht Hg.
  destruct (combine_search_results_scores _ _ Hg) as [Hvs Hts].
  simpl. rewrite Hvs, Hts.
  rewrite ScoreBySource_app_l by (intros h Hh; now apply hits_from_ts in Hh).
  rewrite ScoreBySource_app_r by (intros h Hh; now apply hits_from_vs in Hh).
  rewrite (ScoreBySource_hits_from vs_score vector_priority found_v Hv 0).
  rewrite (ScoreBySource_hits_from ts_score text_priority found_t Ht 0).
  now rewrite !contribution_option_map.
Qed.

(** X1.  When neither search returns a movie twice, the score of a document
    of the result is the sum of one reciprocal per source that lists the item
    among its first [limit] hits: [1 / (position + priority + 1)], the
    position counted from 0 in that source's own list. *)
Theorem fused_score_closed_form (vector_priority text_priority limit : Z)
    (neighbours matches : list Movie.t) (out : list Fused.t) (d : Fused.t) :
  NoDup (map Movie._id (firstn (Z.to_nat limit) neighbours)) ->
  NoDup (map Movie._id (firstn (Z.to_nat limit) matches)) ->
  pipeline vector_priority text_priority limit neighbours matches = Ok out ->
  In d out ->
  Fused.score d =
    (contribution vector_priority
       (position (Fused._id d) (firstn (Z.to_nat limit) neighbours)) +
     contribution text_priority
       (position (Fused._id d) (firstn (Z.to_nat limit) matches)))%Q.
Proof.
  intros Hv Ht H Hd.
  destruct (pipeline_In _ _ _ _ _ _ _ H Hd) as (u & g & Hu & Hg & ->).
  apply union_with_Ok in Hu. destruct Hu as [_ ->].
  now apply group_score_closed_form.
Qed.

Lemma fused_score_closed_form_witness :
  let out := [Fused.mk 1%N (Some "Alpha"%string) None (Some 1999) (3 # 2);
              Fused.mk 2%N (Some "Beta"%string) (Some "b"%string) None (3 # 2);
              Fused.mk 3%N None None None (1 # 3)] in
  let d := Fused.mk 2%N (Some "Beta"%string) (Some "b"%string) None (3 # 2) in
  NoDup (map Movie._id (firstn (Z.to_nat 3) [Sample.A; Sample.B; Sample.C])) /\
  NoDup (map Movie._id (firstn (Z.to_nat 3) [Sample.B; Sample.A])) /\
  pipeline 0 0 3 [Sample.A; Sample.B; Sample.C] [Sample.B; Sample.A] = Ok out /\
  In d out /\
  Fused.score d =
    (contribution 0 (position (Fused._id d) (firstn (Z.to_nat 3) [Sample.A; Sample.B; Sample.C])) +
     contribution 0 (position (Fused._id d) (firstn (Z.to_nat 3) [Sample.B; Sample.A])))%Q.
Proof.
  intros out d.
  assert (Hv : NoDup (map Movie._id (firstn (Z.to_nat 3) [Sample.A; Sample.B; Sample.C]))).
  { repeat constructor; simpl; intuition discriminate. }
  assert (Ht : NoDup (map Movie._id (firstn (Z.to_nat 3) [Sample.B; Sample.A]))).
  { repeat constructor; simpl; intuition discriminate. }
  assert (H : pipeline 0 0 3 [Sample.A; Sample.B; Sample.C] [Sample.B; Sample.A] = Ok out)
    by reflexivity.
  assert (Hd : In d out) by (right; left; reflexivity).
  split; [exact Hv|]. split; [exact Ht|]. split; [exact H|]. split; [exact Hd|].
  exact (fused_score_closed_form 0 0 3 _ _ out d Hv Ht H Hd).
Defined.

(** ** Ranks are positions *)

Lemma unwind_from_docs (found : list Movie.t) :
  forall i : Z, map Ranked.docs (unwind_from i found) = found.
Proof.
  induction found as [|m found IH]; intros i; simpl; [reflexivity|]. now rewrite IH.
Qed.

Lemma unwind_from_ranks (found : list Movie.t) :
  forall k : nat,
    map Ranked.rank (unwind_from (Z.of_nat k) found) =
    map Z.of_nat (seq k (List.length found)).
Proof.
  induction found as [|m found IH]; intros k; simpl; [reflexivity|].
  f_equal. rewrite <- IH. do 2 f_equal. lia.
Qed.

(** X2.  [make_array] followed by [add_rank] keeps the documents of a search
    in their order, one output document per input document, and numbers them
    0, 1, 2, ... in that order; an empty search gives no document at all. *)
Theorem ranks_number_the_hits (found : list Movie.t) :
  map Ranked.docs (add_rank (make_array found)) = found /\
  map Ranked.rank (add_rank (make_array found)) =
    map Z.of_nat (seq 0 (List.length found)) /\
  (found = [] -> add_rank (make_array found) = []).
Proof.
  rewrite add_rank_make_array. split; [apply unwind_from_docs|].
  split; [apply (unwind_from_ranks found 0)|]. now intros ->.
Qed.

(** ** The size of the result *)

Lemma group_step_length (gs : list Hit.t) (d : Hit.t) :
  (List.length (group_step gs d) <= S (List.length gs))%nat.
Proof.
  induction gs as [|g gs IH]; simpl; [lia|].
  destruct (N.eqb (Hit._id g) (Hit._id d)); simpl; lia.
Qed.

Lemma combine_search_results_length (l : list Hit.t) :
  (List.length (combine_search_results l) <= List.length l)%nat.
Proof.
  induction l as [|d l IH] using rev_ind; [simpl; lia|].
  rewrite combine_search_results_snoc, length_app. simpl.
  pose proof (group_step_length (combine_search_results l) d). lia.
Qed.

Lemma pipeline_length (vector_priority text_priority limit : Z)
    (neighbours matches : list Movie.t) (out : list Fused.t) :
  pipeline vector_priority text_priority limit neighbours matches = Ok out ->
  exists u,
    union_with vector_priority text_priority limit neighbours matches = Ok u /\
    List.length out =
      Nat.min (Z.to_nat limit) (List.length (combine_search_results u)).
Proof.
  intros H. apply pipeline_Ok in H. destruct H as (f & Hf & ->).
  apply fused_Ok in Hf. destruct Hf as (u & Hu & ->). exists u. split; [exact Hu|].
  rewrite length_firstn, (Permutation_length (sort_results_Permutation _)).
  now rewrite length_map.
Qed.

(** X3.  The result never has more than [limit] documents, nor more than the
    two searches returned together. *)
Theorem result_is_at_most_limit_long (vector_priority text_priority limit : Z)
    (neighbours matches : list Movie.t) (out : list Fused.t) :
  pipeline vector_priority text_priority limit neighbours matches = Ok out ->
  Z.of_nat (List.length out) <= limit /\
  (List.length out <= List.length neighbours + List.length matches)%nat.
Proof.
  intros H. destruct (pipeline_length _ _ _ _ _ _ H) as (u & Hu & ->).
  apply union_with_Ok in Hu. destruct Hu as [Hl ->].
  pose proof (combine_search_results_length
    (hits_from vs_score vector_priority 0 (firstn (Z.to_nat limit) neighbours) ++
     hits_from ts_score text_priority 0 (firstn (Z.to_nat limit) matches))) as Hc.
  rewrite length_app, !hits_from_length, !length_firstn in Hc.
  split; lia.
Qed.

Lemma result_is_at_most_limit_long_witness :
  let out := [Fused.mk 2%N (Some "Beta"%string) (Some "b"%string) None (1 # 2)] in
  pipeline 1 1 1 [Sample.B; Sample.A; Sample.C] [Sample.A; Sample.B] = Ok out /\
  Z.of_nat (List.length out) <= 1 /\
  (List.length out <=
   List.length [Sample.B; Sample.A; Sample.C] + List.length [Sample.A; Sample.B])%nat.
Proof.
  intros out.
  assert (H : pipeline 1 1 1 [Sample.B; Sample.A; Sample.C] [Sample.A; Sample.B] = Ok out)
    by reflexivity.
  split; [exact H|].
  exact (result_is_at_most_limit_long 1 1 1 _ _ out H).
Defined.

(** ** Hits beyond the limit *)

Lemma vector_branch_capped (priority limit : Z) (neighbours : list Movie.t) :
  vector_branch priority limit neighbours =
  vector_branch priority limit (firstn (Z.to_nat limit) neighbours).
Proof.
  unfold vector_branch.
  destruct (Z.le_gt_cases 1 limit) as [Hl | Hl];
    [destruct (Z.le_gt_cases limit 1000) as [Hm | Hm]|].
  - rewrite !vector_search_total by (split; assumption).
    now rewrite firstn_firstn, Nat.min_id.
  - now rewrite !vector_search_rejects by lia.
  - now rewrite !vector_search_rejects by lia.
Qed.

Lemma text_branch_capped (priority limit : Z) (matches : list Movie.t) :
  text_branch priority limit matches =
  text_branch priority limit (firstn (Z.to_nat limit) matches).
Proof.
  unfold text_branch, text_search. destruct (Z.le_gt_cases 1 limit) as [Hl | Hl].
  - rewrite !limit_results_total by exact Hl. now rewrite firstn_firstn, Nat.min_id.
  - unfold limit_results. destruct (Z.ltb_spec limit 1); [reflexivity | lia].
Qed.

(** X4.  What a search returns after its first [limit] hits has no effect:
    the pipeline gives the same result, or the same failure, on the two hit
    lists as on their prefixes of length [limit]. *)
Theorem hits_beyond_limit_are_ignored (vector_priority text_priority limit : Z)
    (neighbours matches : list Movie.t) :
  pipeline vector_priority text_priority limit neighbours matches =
  pipeline vector_priority text_priority limit
           (firstn (Z.to_nat limit) neighbours) (firstn (Z.to_nat limit) matches).
Proof.
  unfold pipeline, fused, union_with.
  now rewrite (vector_branch_capped _ _ neighbours), (text_branch_capped _ _ matches).
Qed.

(** ** When the pipeline fails *)

Lemma divide_by_nonzero (d : Z) :
  d <> 0 -> divide 1 (inject_Z d) = Ok (1 / inject_Z d)%Q.
Proof. intros Hd. destruct d as [|p|p]; [congruence | reflexivity | reflexivity]. Qed.

Lemma make_compute_score_doc_zero (priority : Z) (name : score_field_name) (d : Ranked.t) :
  Ranked.rank d + priority + 1 = 0 ->
  make_compute_score_doc priority name d = Error DivideByZero.
Proof. intros H. unfold make_compute_score_doc. now rewrite H. Qed.

Lemma make_compute_score_doc_nonzero (priority : Z) (name : score_field_name) (d : Ranked.t) :
  Ranked.rank d + priority + 1 <> 0 ->
  exists s, make_compute_score_doc priority name d = Ok s.
Proof.
  intros H. unfold make_compute_score_doc.
  rewrite (divide_by_nonzero _ H). eexists; reflexivity.
Qed.

(** Scoring a ranked stream fails on a division exactly when one of its ranks
    makes the divisor zero. *)
Lemma scored_stream_outcome (name : score_field_name) (priority : Z) (found : list Movie.t) :
  forall k : Z,
    ((exists n, (n < List.length found)%nat /\ k + Z.of_nat n + priority + 1 = 0) /\
     mapM (make_compute_score_doc priority name) (unwind_from k found) = Error DivideByZero)
    \/
    ((forall n, (n < List.length found)%nat -> k + Z.of_nat n + priority + 1 <> 0) /\
     exists scored,
       mapM (make_compute_score_doc priority name) (unwind_from k found) = Ok scored).
Proof.
  induction found as [|m found IH]; intros k.
  - right. split; [simpl; intros n Hn; lia | eexists; reflexivity].
  - simpl. destruct (Z.eq_dec (k + priority + 1) 0) as [E | E].
    + left. split; [exists 0%nat; split; [lia | simpl; lia]|].
      rewrite make_compute_score_doc_zero by exact E. reflexivity.
    + destruct (make_compute_score_doc_nonzero priority name (Ranked.mk m k) E) as [s ->].
      simpl. destruct (IH (k + 1)) as [[(n & Hn & Hz) ->] | [Hall [scored ->]]].
      * left. split; [|reflexivity]. exists (S n). split; [lia | lia].
      * right. split; [|eexists; reflexivity].
        intros [|n] Hn; [simpl; lia|]. specialize (Hall n ltac:(lia)). lia.
Qed.

Lemma divides_by_zero_spec (priority : Z) (count : nat) :
  divides_by_zero priority count = true <->
  exists n, (n < count)%nat /\ 0 + Z.of_nat n + priority + 1 = 0.
Proof.
  unfold divides_by_zero. rewrite andb_true_iff, Z.ltb_lt, Z.leb_le. split.
  - intros [H1 H2]. exists (Z.to_nat (- priority - 1)). lia.
  - intros (n & H1 & H2). lia.
Qed.

Lemma scored_stream_by_count (name : score_field_name) (priority : Z) (found : list Movie.t) :
  if divides_by_zero priority (List.length found)
  then mapM (make_compute_score_doc priority name) (unwind_from 0 found) = Error DivideByZero
  else mapM (make_compute_score_doc priority name) (unwind_from 0 found) <> Error DivideByZero /\
       exists scored,
         mapM (make_compute_score_doc priority name) (unwind_from 0 found) = Ok scored.
Proof.
  destruct (divides_by_zero priority (List.length found)) eqn:E.
  - apply divides_by_zero_spec in E.
    destruct (scored_stream_outcome name priority found 0) as [[_ H] | [Hall _]]; [exact H|].
    destruct E as (n & Hn & Hz). now apply Hall in Hz.
  - destruct (scored_stream_outcome name priority found 0) as [[Hex _] | [_ [scored H]]].
    + apply divides_by_zero_spec in Hex. congruence.
    + rewrite H. split; [discriminate | now exists scored].
Qed.

(** With a limit from 1 to 1000, what the pipeline does: it fails on a division when a priority cancels a rank, and
    returns a result otherwise. *)
Lemma pipeline_outcome (vector_priority text_priority limit : Z)
    (neighbours matches : list Movie.t) :
  1 <= limit <= 1000 ->
  if divides_by_zero vector_priority (List.length (firstn (Z.to_nat limit) neighbours)) ||
     divides_by_zero text_priority (List.length (firstn (Z.to_nat limit) matches))
  then pipeline vector_priority text_priority limit neighbours matches = Error DivideByZero
  else exists out, pipeline vector_priority text_priority limit neighbours matches = Ok out.
Proof.
  intros Hl.
  pose proof (scored_stream_by_count vs_score vector_priority
                (firstn (Z.to_nat limit) neighbours)) as Hv.
  pose proof (scored_stream_by_count ts_score text_priority
                (firstn (Z.to_nat limit) matches)) as Ht.
  unfold pipeline, fused, union_with, vector_branch, text_branch, text_search.
  rewrite (vector_search_total _ _ Hl), (limit_results_total _ _ (proj1 Hl)). simpl.
  rewrite !add_rank_make_array.
  destruct (divides_by_zero vector_priority _).
  - simpl. now rewrite Hv.
  - destruct Hv as [_ [sv ->]]. simpl.
    destruct (divides_by_zero text_priority _).
    + now rewrite Ht.
    + destruct Ht as [_ [st ->]]. simpl.
      rewrite (limit_results_total _ _ (proj1 Hl)). eexists; reflexivity.
Qed.

(** X5.  With a limit the stages accept (from 1 to 1000) the pipeline fails
    on a division by zero exactly when a priority is negative and cancels a
    rank: when [rank + priority + 1 = 0] for the rank of one of the (at most
    [limit]) candidates of that priority's source. *)
Theorem division_fails_exactly_on_zero_divisor (vector_priority text_priority limit : Z)
    (neighbours matches : list Movie.t) :
  1 <= limit <= 1000 ->
  pipeline vector_priority text_priority limit neighbours matches = Error DivideByZero <->
  (exists n, (n < List.length (firstn (Z.to_nat limit) neighbours))%nat /\
             Z.of_nat n + vector_priority + 1 = 0) \/
  (exists n, (n < List.length (firstn (Z.to_nat limit) matches))%nat /\
             Z.of_nat n + text_priority + 1 = 0).
Proof.
  intros Hl.
  pose proof (pipeline_outcome vector_priority text_priority limit neighbours matches Hl) as H.
  pose proof (divides_by_zero_spec vector_priority
                (List.length (firstn (Z.to_nat limit) neighbours))) as Sv.
  pose proof (divides_by_zero_spec text_priority
                (List.length (firstn (Z.to_nat limit) matches))) as St.
  destruct (divides_by_zero vector_priority _) eqn:Ev;
    destruct (divides_by_zero text_priority _) eqn:Et; simpl in H.
  - split; [intros _; left; now apply Sv | intros _; exact H].
  - split; [intros _; left; now apply Sv | intros _; exact H].
  - split; [intros _; right; now apply St | intros _; exact H].
  - destruct H as [out H]. rewrite H. split; [discriminate|].
    intros [Hc | Hc]; [apply Sv in Hc | apply St in Hc]; discriminate.
Qed.

Lemma division_fails_exactly_on_zero_divisor_witness :
  1 <= 3 <= 1000 /\
  (pipeline 1 (-2) 3 [Sample.A] [Sample.A; Sample.B; Sample.C] = Error DivideByZero <->
   (exists n, (n < List.length (firstn (Z.to_nat 3) [Sample.A]))%nat /\
              Z.of_nat n + 1 + 1 = 0) \/
   (exists n, (n < List.length (firstn (Z.to_nat 3) [Sample.A; Sample.B; Sample.C]))%nat /\
              Z.of_nat n + (-2) + 1 = 0)).
Proof.
  split; [lia|].
  exact (division_fails_exactly_on_zero_divisor 1 (-2) 3 [Sample.A]
           [Sample.A; Sample.B; Sample.C] ltac:(lia)).
Defined.

(** ** The presentation fields *)

Lemma find_app_first {A : Type} (f : A -> bool) (l l' : list A) :
  find f (l ++ l') = match find f l with Some x => Some x | None => find f l' end.
Proof.
  induction l as [|a l IH]; simpl; [reflexivity|]. now destruct (f a).
Qed.

Lemma find_absent (i : ObjectId) (l : list Hit.t) :
  ~ In i (map Hit._id l) -> find (fun d => N.eqb (Hit._id d) i) l = None.
Proof.
  intros H. destruct (find _ l) as [h|] eqn:E; [|reflexivity].
  apply find_some in E. destruct E as [Hin E]. apply N.eqb_eq in E.
  exfalso. apply H. rewrite <- E. now apply in_map.
Qed.

(** A group has the title, plot and year of the first document of its [_id]. *)
Lemma combine_search_results_first (l : list Hit.t) :
  forall g : Hit.t,
    In g (combine_search_results l) ->
    exists h,
      find (fun d => N.eqb (Hit._id d) (Hit._id g)) l = Some h /\
      Hit.title g = Hit.title h /\ Hit.plot g = Hit.plot h /\ Hit.year g = Hit.year h.
Proof.
  induction l as [|d l IH] using rev_ind; intros g' H; [contradiction|].
  rewrite combine_search_results_snoc in H.
  apply group_step_In in H; [|apply combine_search_results_NoDup].
  rewrite find_app_first.
  destruct H as [[H1 H2] | [(g & H1 & H2 & ->) | [H1 ->]]].
  - destruct (IH g' H1) as (h & -> & Hf). now exists h.
  - destruct (IH g H1) as (h & Hh & Hf). simpl. rewrite Hh. now exists h.
  - rewrite combine_search_results_ids in H1. simpl.
    rewrite (find_absent _ _ H1), N.eqb_refl. now exists d.
Qed.

Lemma hits_from_shows (name : score_field_name) (priority : Z) (found : list Movie.t) :
  forall k : Z, Forall2 shows (hits_from name priority k found) found.
Proof.
  induction found as [|m found IH]; intros k; simpl; constructor; [|apply IH].
  unfold shows, hit_of; simpl. tauto.
Qed.

Lemma Forall2_In_l {A B : Type} (R : A -> B -> Prop) (l : list A) (l' : list B) (a : A) :
  Forall2 R l l' -> In a l -> exists b, In b l' /\ R a b.
Proof.
  induction 1 as [|x y l l' Hxy _ IH]; simpl; intros Ha; [contradiction|].
  destruct Ha as [<- | Ha].
  - exists y. split; [now left | exact Hxy].
  - destruct (IH Ha) as (b & Hb & Hab). exists b. split; [now right | exact Hab].
Qed.

(** X6.  The title, plot and year of a document of a result are those of a
    candidate of its [_id]: of one of the first [limit] hits of one of the
    two searches.  This holds for every result the pipeline may return, in
    whatever order the documents of the two branches reach [$group]. *)
Theorem result_shows_a_retrieved_movie (vector_priority text_priority limit : Z)
    (neighbours matches : list Movie.t) (out : list Fused.t) (d : Fused.t) :
  may_return vector_priority text_priority limit neighbours matches out ->
  In d out ->
  exists m,
    In m (firstn (Z.to_nat limit) neighbours ++ firstn (Z.to_nat limit) matches) /\
    Movie._id m = Fused._id d /\
    Fused.title d = Movie.title m /\
    Fused.plot d = Movie.plot m /\
    Fused.year d = Movie.year m.
Proof.
  intros (v & t & u & s0 & Hv & Ht & Hu & [Hperm _] & Hlim) Hd.
  apply limit_results_Ok in Hlim. destruct Hlim as [_ ->].
  apply firstn_In in Hd. apply (Permutation_in _ (Permutation_sym Hperm)) in Hd.
  apply in_map_iff in Hd. destruct Hd as (g & <- & Hg).
  destruct (combine_search_results_first _ _ Hg) as (h & Hh & Hti & Hpl & Hye).
  apply find_some in Hh. destruct Hh as [Hin Hid]. apply N.eqb_eq in Hid.
  apply (Permutation_in _ (Permutation_sym Hu)) in Hin.
  apply vector_branch_Ok in Hv. apply text_branch_Ok in Ht.
  destruct Hv as [_ ->], Ht as [_ ->].
  assert (HF : Forall2 shows
            (hits_from vs_score vector_priority 0 (firstn (Z.to_nat limit) neighbours) ++
             hits_from ts_score text_priority 0 (firstn (Z.to_nat limit) matches))
            (firstn (Z.to_nat limit) neighbours ++ firstn (Z.to_nat limit) matches)).
  { apply Forall2_app; apply hits_from_shows. }
  destruct (Forall2_In_l _ _ _ _ HF Hin) as (m & Hm & Hid' & Hti' & Hpl' & Hye').
  exists m. simpl. split; [exact Hm|]. repeat split; congruence.
Qed.

Lemma result_shows_a_retrieved_movie_witness :
  let out := [Fused.mk 2%N (Some "Beta"%string) (Some "b"%string) None (1 # 2)] in
  let d := Fused.mk 2%N (Some "Beta"%string) (Some "b"%string) None (1 # 2) in
  may_return 1 1 1 [Sample.B; Sample.A; Sample.C] [Sample.A; Sample.B] out /\
  In d out /\
  exists m,
    In m (firstn (Z.to_nat 1) [Sample.B; Sample.A; Sample.C] ++
          firstn (Z.to_nat 1) [Sample.A; Sample.B]) /\
    Movie._id m = Fused._id d /\
    Fused.title d = Movie.title m /\
    Fused.plot d = Movie.plot m /\
    Fused.year d = Movie.year m.
Proof.
  intros out d.
  assert (H : may_return 1 1 1 [Sample.B; Sample.A; Sample.C] [Sample.A; Sample.B] out)
    by (apply pipeline_may_return; reflexivity).
  assert (Hd : In d out) by (left; reflexivity).
  split; [exact H|]. split; [exact Hd|].
  exact (result_shows_a_retrieved_movie 1 1 1 _ _ out d H Hd).
Defined.

(** ** What the final limit keeps *)

Lemma fused_ids (vector_priority text_priority limit : Z)
    (neighbours matches : list Movie.t) (f : list Fused.t) (i : ObjectId) :
  fused vector_priority text_priority limit neighbours matches = Ok f ->
  In i (map Fused._id f) <->
  In i (map Movie._id (firstn (Z.to_nat limit) neighbours ++
                       firstn (Z.to_nat limit) matches)).
Proof.
  intros H. apply fused_Ok in H. destruct H as (u & Hu & ->).
  apply union_with_Ok in Hu. destruct Hu as [_ ->].
  rewrite project_combined_results_ids, combine_search_results_ids.
  now rewrite !map_app, !hits_from_ids.
Qed.

(** X7.  No candidate is lost before the final limit: an item among the first
    [limit] hits of either search is in the result, unless the result is
    full, that is, has [limit] documents. *)
Theorem candidates_are_kept_unless_full (vector_priority text_priority limit : Z)
    (neighbours matches : list Movie.t) (out : list Fused.t) (m : Movie.t) :
  pipeline vector_priority text_priority limit neighbours matches = Ok out ->
  In m (firstn (Z.to_nat limit) neighbours ++ firstn (Z.to_nat limit) matches) ->
  In (Movie._id m) (map Fused._id out) \/ Z.of_nat (List.length out) = limit.
Proof.
  intros H Hm. apply pipeline_Ok in H. destruct H as (f & Hf & ->).
  assert (Hl : 1 <= limit).
  { destruct (fused_Ok _ _ _ _ _ _ Hf) as (u & Hu & _). now apply union_with_Ok in Hu. }
  destruct (Nat.le_gt_cases (List.length (sort_results f)) (Z.to_nat limit)) as [Hle | Hgt].
  - left. rewrite firstn_all2 by exact Hle.
    apply (Permutation_in _ (Permutation_map Fused._id
                               (Permutation_sym (sort_results_Permutation f)))).
    apply (fused_ids _ _ _ _ _ _ _ Hf). now apply in_map.
  - right. rewrite length_firstn. lia.
Qed.

Lemma candidates_are_kept_unless_full_witness :
  let out := [Fused.mk 2%N (Some "Beta"%string) (Some "b"%string) None (5 # 6);
              Fused.mk 1%N (Some "Alpha"%string) None (Some 1999) (5 # 6)] in
  pipeline 1 1 10 [Sample.B; Sample.A] [Sample.A; Sample.B] = Ok out /\
  In Sample.A (firstn (Z.to_nat 10) [Sample.B; Sample.A] ++
               firstn (Z.to_nat 10) [Sample.A; Sample.B]) /\
  (In (Movie._id Sample.A) (map Fused._id out) \/ Z.of_nat (List.length out) = 10).
Proof.
  intros out.
  assert (H : pipeline 1 1 10 [Sample.B; Sample.A] [Sample.A; Sample.B] = Ok out)
    by reflexivity.
  assert (Hm : In Sample.A (firstn (Z.to_nat 10) [Sample.B; Sample.A] ++
                            firstn (Z.to_nat 10) [Sample.A; Sample.B]))
    by (right; left; reflexivity).
  split; [exact H|]. split; [exact Hm|].
  exact (candidates_are_kept_unless_full 1 1 10 _ _ out Sample.A H Hm).
Defined.

(** X8.  The final limit keeps the best: a group that is not in the result
    has no greater score than any document that is. *)
Theorem result_keeps_the_best (vector_priority text_priority limit : Z)
    (neighbours matches : list Movie.t) (f out : list Fused.t) (d e : Fused.t) :
  fused vector_priority text_priority limit neighbours matches = Ok f ->
  pipeline vector_priority text_priority limit neighbours matches = Ok out ->
  In d out -> In e f ->
  ~ In (Fused._id e) (map Fused._id out) ->
  (Fused.score e <= Fused.score d)%Q.
Proof.
  intros Hf H Hd He Hout. apply pipeline_Ok in H. destruct H as (f' & Hf' & ->).
  rewrite Hf in Hf'. inv_Ok Hf'.
  pose proof (sort_results_StronglySorted f') as Hs.
  rewrite <- (firstn_skipn (Z.to_nat limit) (sort_results f')) in Hs.
  apply (StronglySorted_app_cross _ _ _ Hs d e Hd).
  apply (Permutation_in _ (Permutation_sym (sort_results_Permutation f'))) in He.
  rewrite <- (firstn_skipn (Z.to_nat limit) (sort_results f')) in He.
  apply in_app_iff in He. destruct He as [He | He]; [|exact He].
  exfalso. apply Hout. now apply in_map.
Qed.

Lemma result_keeps_the_best_witness :
  let f := [Fused.mk 2%N (Some "Beta"%string) (Some "b"%string) None (1 # 2);
            Fused.mk 1%N (Some "Alpha"%string) None (Some 1999) (1 # 3)] in
  let out := [Fused.mk 2%N (Some "Beta"%string) (Some "b"%string) None (1 # 2)] in
  let d := Fused.mk 2%N (Some "Beta"%string) (Some "b"%string) None (1 # 2) in
  let e := Fused.mk 1%N (Some "Alpha"%string) None (Some 1999) (1 # 3) in
  fused 1 2 1 [Sample.B; Sample.C] [Sample.A; Sample.B] = Ok f /\
  pipeline 1 2 1 [Sample.B; Sample.C] [Sample.A; Sample.B] = Ok out /\
  In d out /\ In e f /\
  ~ In (Fused._id e) (map Fused._id out) /\
  (Fused.score e <= Fused.score d)%Q.
Proof.
  intros f out d e.
  assert (Hf : fused 1 2 1 [Sample.B; Sample.C] [Sample.A; Sample.B] = Ok f) by reflexivity.
  assert (H : pipeline 1 2 1 [Sample.B; Sample.C] [Sample.A; Sample.B] = Ok out)
    by reflexivity.
  assert (Hd : In d out) by (left; reflexivity).
  assert (He : In e f) by (right; left; reflexivity).
  assert (Hout : ~ In (Fused._id e) (map Fused._id out)).
  { simpl. intros [E | []]. discriminate. }
  split; [exact Hf|]. split; [exact H|]. split; [exact Hd|]. split; [exact He|].
  split; [exact Hout|].
  exact (result_keeps_the_best 1 2 1 _ _ f out d e Hf H Hd He Hout).
Defined.

(** ** Swapping the two sources *)

Lemma occurrences_hits_from_swap (priority : Z) (found : list Movie.t) (i : ObjectId) :
  forall k : Z,
    map Hit.vs_score (occurrences i (hits_from vs_score priority k found)) =
    map Hit.ts_score (occurrences i (hits_from ts_score priority k found)).
Proof.
  induction found as [|m found IH]; intros k; [reflexivity|].
  unfold occurrences in *. simpl.
  destruct (N.eqb (Movie._id m) i); simpl; now rewrite IH.
Qed.

Lemma ScoreBySource_hits_from_swap (priority : Z) (found : list Movie.t) (i : ObjectId) :
  ScoreBySource Hit.vs_score (hits_from vs_score priority 0 found) i =
  ScoreBySource Hit.ts_score (hits_from ts_score priority 0 found) i.
Proof. unfold ScoreBySource. now rewrite occurrences_hits_from_swap. Qed.

(** The two terms of a group of the union, by source. *)
Lemma group_terms (vector_priority text_priority : Z) (found_v found_t : list Movie.t)
    (g : Hit.t) :
  In g (combine_search_results
          (hits_from vs_score vector_priority 0 found_v ++
           hits_from ts_score text_priority 0 found_t)) ->
  Hit.vs_score g =
    ScoreBySource Hit.vs_score (hits_from vs_score vector_priority 0 found_v) (Hit._id g) /\
  Hit.ts_score g =
    ScoreBySource Hit.ts_score (hits_from ts_score text_priority 0 found_t) (Hit._id g).
Proof.
  intros Hg. destruct (combine_search_results_scores _ _ Hg) as [Hvs Hts].
  rewrite Hvs, Hts. split.
  - apply ScoreBySource_app_l. intros h Hh. now apply hits_from_ts in Hh.
  - apply ScoreBySource_app_r. intros h Hh. now apply hits_from_vs in Hh.
Qed.

(** X9.  The two sources are scored alike: run the pipeline with the two hit
    lists exchanged, and the two priorities with them, and an item that is in
    both results has the same score in both. *)
Theorem swapping_sources_keeps_scores (vector_priority text_priority limit : Z)
    (neighbours matches : list Movie.t) (out out' : list Fused.t) (d d' : Fused.t) :
  pipeline vector_priority text_priority limit neighbours matches = Ok out ->
  pipeline text_priority vector_priority limit matches neighbours = Ok out' ->
  In d out -> In d' out' ->
  Fused._id d' = Fused._id d ->
  (Fused.score d' == Fused.score d)%Q.
Proof.
  intros H H' Hd Hd' E.
  destruct (pipeline_In _ _ _ _ _ _ _ H Hd) as (u & g & Hu & Hg & ->).
  destruct (pipeline_In _ _ _ _ _ _ _ H' Hd') as (u' & g' & Hu' & Hg' & ->).
  apply union_with_Ok in Hu, Hu'. destruct Hu as [_ ->], Hu' as [_ ->].
  apply group_terms in Hg, Hg'. destruct Hg as [Hvs Hts], Hg' as [Hvs' Hts'].
  simpl in E. simpl. rewrite Hvs, Hts, Hvs', Hts', E.
  rewrite !ScoreBySource_hits_from_swap. apply Qplus_comm.
Qed.

Lemma swapping_sources_keeps_scores_witness :
  let out := [Fused.mk 1%N (Some "Alpha"%string) None (Some 1999) (7 # 6);
              Fused.mk 2%N (Some "Beta"%string) (Some "b"%string) None (1 # 2)] in
  let out' := [Fused.mk 1%N (Some "Alpha"%string) None (Some 1999) (7 # 6);
               Fused.mk 2%N (Some "Beta"%string) (Some "b"%string) None (1 # 2)] in
  let d := Fused.mk 1%N (Some "Alpha"%string) None (Some 1999) (7 # 6) in
  pipeline 0 5 4 [Sample.A; Sample.B] [Sample.A] = Ok out /\
  pipeline 5 0 4 [Sample.A] [Sample.A; Sample.B] = Ok out' /\
  In d out /\ In d out' /\
  Fused._id d = Fused._id d /\
  (Fused.score d == Fused.score d)%Q.
Proof.
  intros out out' d.
  assert (H : pipeline 0 5 4 [Sample.A; Sample.B] [Sample.A] = Ok out) by reflexivity.
  assert (H' : pipeline 5 0 4 [Sample.A] [Sample.A; Sample.B] = Ok out') by reflexivity.
  assert (Hd : In d out) by (left; reflexivity).
  assert (Hd' : In d out') by (left; reflexivity).
  split; [exact H|]. split; [exact H'|]. split; [exact Hd|]. split; [exact Hd'|].
  split; [reflexivity|].
  exact (swapping_sources_keeps_scores 0 5 4 _ _ out out' d d H H' Hd Hd' eq_refl).
Defined.

(** ** The greatest score there is *)

Lemma hit_of_at_most_top (name : score_field_name) (priority i : Z) (m : Movie.t) (q : Q) :
  0 <= priority -> 0 <= i ->
  score_of name (hit_of name priority i m) = Some q ->
  (q <= 1 / inject_Z (priority + 1))%Q.
Proof.
  intros Hp Hi Hq. rewrite score_of_hit_of in Hq. inv_Ok Hq.
  rewrite !reciprocal_eq by (unfold denominator; lia).
  apply reciprocal_antitone; unfold denominator; lia.
Qed.

Lemma ScoreBySource_at_most_top (name : score_field_name) (priority : Z)
    (found : list Movie.t) (i : ObjectId) :
  0 <= priority ->
  (ifNull (ScoreBySource (score_of name) (hits_from name priority 0 found) i) 0
   <= 1 / inject_Z (priority + 1))%Q.
Proof.
  intros Hp.
  destruct (ScoreBySource _ _ i) as [c|] eqn:E; simpl.
  - apply ScoreBySource_attained in E. destruct E as (h & Hh & _ & Hc).
    apply hits_from_In in Hh. destruct Hh as (n & m & _ & ->).
    apply (hit_of_at_most_top name priority (0 + Z.of_nat n) m c Hp); [lia | exact Hc].
  - rewrite reciprocal_eq by lia. apply Qlt_le_weak, reciprocal_positive.
Qed.

(** X10.  With priorities that are not negative no score exceeds
    [1 / (vector_priority + 1) + 1 / (text_priority + 1)], the score of an
    item that is first in both searches; in particular no score exceeds 2. *)
Theorem score_is_at_most_top_of_both (vector_priority text_priority limit : Z)
    (neighbours matches : list Movie.t) (out : list Fused.t) (d : Fused.t) :
  0 <= vector_priority -> 0 <= text_priority ->
  pipeline vector_priority text_priority limit neighbours matches = Ok out ->
  In d out ->
  (Fused.score d <=
   1 / inject_Z (vector_priority + 1) + 1 / inject_Z (text_priority + 1))%Q /\
  (Fused.score d <= 2)%Q.
Proof.
  intros Hv Ht H Hd.
  destruct (pipeline_In _ _ _ _ _ _ _ H Hd) as (u & g & Hu & Hg & ->).
  apply union_with_Ok in Hu. destruct Hu as [_ ->].
  apply group_terms in Hg. destruct Hg as [Hvs Hts]. simpl. rewrite Hvs, Hts.
  assert (Hsum : (ifNull (ScoreBySource Hit.vs_score
                     (hits_from vs_score vector_priority 0
                        (firstn (Z.to_nat limit) neighbours)) (Hit._id g)) 0 +
                  ifNull (ScoreBySource Hit.ts_score
                     (hits_from ts_score text_priority 0
                        (firstn (Z.to_nat limit) matches)) (Hit._id g)) 0
                  <= 1 / inject_Z (vector_priority + 1) +
                     1 / inject_Z (text_priority + 1))%Q).
  { apply Qplus_le_compat.
    - apply (ScoreBySource_at_most_top vs_score); exact Hv.
    - apply (ScoreBySource_at_most_top ts_score); exact Ht. }
  split; [exact Hsum|].
  eapply Qle_trans; [exact Hsum|].
  rewrite !reciprocal_eq by lia.
  change 2%Q with (1 + 1)%Q. apply Qplus_le_compat; apply reciprocal_le_1.
Qed.

Lemma score_is_at_most_top_of_both_witness :
  let out := [Fused.mk 1%N (Some "Alpha"%string) None (Some 1999) (3 # 2);
              Fused.mk 2%N (Some "Beta"%string) (Some "b"%string) None (3 # 2);
              Fused.mk 3%N None None None (1 # 3)] in
  let d := Fused.mk 1%N (Some "Alpha"%string) None (Some 1999) (3 # 2) in
  0 <= 0 /\ 0 <= 0 /\
  pipeline 0 0 3 [Sample.A; Sample.B; Sample.C] [Sample.B; Sample.A] = Ok out /\
  In d out /\
  (Fused.score d <= 1 / inject_Z (0 + 1) + 1 / inject_Z (0 + 1))%Q /\
  (Fused.score d <= 2)%Q.
Proof.
  intros out d.
  assert (H : pipeline 0 0 3 [Sample.A; Sample.B; Sample.C] [Sample.B; Sample.A] = Ok out)
    by reflexivity.
  assert (Hd : In d out) by (left; reflexivity).
  split; [lia|]. split; [lia|]. split; [exact H|]. split; [exact Hd|].
  exact (score_is_at_most_top_of_both 0 0 3 _ _ out d ltac:(lia) ltac:(lia) H Hd).
Defined.

(** ** One search that finds nothing *)

Lemma group_step_absent (gs : list Hit.t) (d : Hit.t) :
  ~ In (Hit._id d) (map Hit._id gs) -> group_step gs d = gs ++ [open_group d].
Proof.
  induction gs as [|g gs IH]; simpl; intros H; [reflexivity|].
  destruct (N.eqb_spec (Hit._id g) (Hit._id d)) as [E | E]; [tauto|].
  rewrite IH by tauto. reflexivity.
Qed.

Lemma fold_group_step_distinct (l : list Hit.t) :
  forall acc : list Hit.t,
    NoDup (map Hit._id acc ++ map Hit._id l) ->
    fold_left group_step l acc = acc ++ map open_group l.
Proof.
  induction l as [|d l IH]; intros acc H; simpl; [now rewrite app_nil_r|].
  simpl in H. pose proof (NoDup_remove_2 _ _ _ H) as Hd.
  rewrite group_step_absent by (intros Hin; apply Hd; apply in_or_app; now left).
  rewrite IH; [now rewrite <- app_assoc|].
  rewrite map_app, <- app_assoc. exact H.
Qed.

(** Documents with distinct [_id]s are one group each, in their order. *)
Lemma combine_search_results_distinct (l : list Hit.t) :
  NoDup (map Hit._id l) -> combine_search_results l = map open_group l.
Proof. intros H. exact (fold_group_step_distinct l [] H). Qed.

(** Sorting leaves a stream that is in descending order of score as it is. *)
Lemma sort_results_sorted (l : list Fused.t) :
  StronglySorted score_ge l -> sort_results l = l.
Proof.
  induction 1 as [|d l Hs IH Hall]; simpl; [reflexivity|].
  rewrite IH. destruct l as [|e l]; [reflexivity|]. simpl.
  inversion Hall as [|? ? He _]; subst. unfold score_ge in He.
  apply Qle_bool_iff in He. now rewrite He.
Qed.

Lemma alone_score (name : score_field_name) (priority i : Z) (m : Movie.t) :
  0 < denominator priority i ->
  (Fused.score (project_combined_results (open_group (hit_of name priority i m)))
   == 1 # Z.to_pos (denominator priority i))%Q.
Proof.
  intros Hd. unfold hit_of. rewrite (reciprocal_eq _ Hd).
  destruct name; simpl; [apply Qplus_0_r | apply Qplus_0_l].
Qed.

Lemma alone_In (name : score_field_name) (priority : Z) (found : list Movie.t) :
  forall (k : Z) (d : Fused.t),
    In d (alone name priority k found) ->
    exists n m, d = project_combined_results (open_group (hit_of name priority (k + Z.of_nat n) m)).
Proof.
  intros k d H. unfold alone in H. rewrite map_map in H.
  apply in_map_iff in H. destruct H as (h & <- & Hh).
  apply hits_from_In in Hh. destruct Hh as (n & m & _ & ->). now exists n, m.
Qed.

Lemma alone_StronglySorted (name : score_field_name) (priority : Z) (found : list Movie.t) :
  0 <= priority ->
  forall k : Z, 0 <= k -> StronglySorted score_ge (alone name priority k found).
Proof.
  intros Hp. induction found as [|m found IH]; intros k Hk; [constructor|].
  unfold alone. simpl. constructor; [apply IH; lia|].
  fold (alone name priority (k + 1) found).
  apply Forall_forall. intros d Hd.
  apply alone_In in Hd. destruct Hd as (n & m' & ->). unfold score_ge.
  rewrite !alone_score by (unfold denominator; lia).
  apply reciprocal_antitone; unfold denominator; lia.
Qed.

Lemma alone_nth (name : score_field_name) (priority : Z) (found : list Movie.t)
    (n : nat) (d : Fused.t) :
  0 <= priority ->
  nth_error (alone name priority 0 found) n = Some d ->
  (Fused.score d == 1 / inject_Z (Z.of_nat n + priority + 1))%Q /\
  exists m, nth_error found n = Some m /\ Fused._id d = Movie._id m.
Proof.
  intros Hp H. unfold alone in H. rewrite map_map, nth_error_map in H.
  destruct (nth_error (hits_from name priority 0 found) n) as [h|] eqn:E; [|discriminate].
  inv_Ok H.
  assert (Hh : In h (hits_from name priority 0 found)) by (eapply nth_error_In; eauto).
  destruct (nth_error found n) as [m|] eqn:Em.
  - rewrite (hits_from_nth _ _ _ _ _ _ Em) in E. inv_Ok E. split.
    + rewrite alone_score by (unfold denominator; lia).
      rewrite reciprocal_eq by lia. unfold denominator.
      replace (0 + Z.of_nat n + priority + 1) with (Z.of_nat n + priority + 1) by lia.
      reflexivity.
    + now exists m.
  - exfalso. apply nth_error_None in Em.
    assert (Hlen : (n < List.length (hits_from name priority 0 found))%nat).
    { apply nth_error_Some. congruence. }
    rewrite hits_from_length in Hlen. lia.
Qed.

Lemma alone_ids (name : score_field_name) (priority k : Z) (found : list Movie.t) :
  map Fused._id (alone name priority k found) = map Movie._id found.
Proof.
  unfold alone. rewrite project_combined_results_ids.
  rewrite map_map. simpl. apply hits_from_ids.
Qed.

Lemma pipeline_alone (name : score_field_name) (priority limit : Z)
    (found : list Movie.t) :
  0 <= priority ->
  NoDup (map Movie._id found) -> (List.length found <= Z.to_nat limit)%nat ->
  firstn (Z.to_nat limit)
    (sort_results (map project_combined_results
       (combine_search_results (hits_from name priority 0 found))))
  = alone name priority 0 found.
Proof.
  intros Hp Hnd Hlen.
  rewrite combine_search_results_distinct by now rewrite hits_from_ids.
  fold (alone name priority 0 found).
  rewrite sort_results_sorted by (apply alone_StronglySorted; lia).
  apply firstn_all2.
  rewrite <- (length_map Fused._id), alone_ids, length_map. exact Hlen.
Qed.

Lemma text_branch_nothing (priority limit : Z) :
  1 <= limit -> text_branch priority limit [] = Ok [].
Proof.
  intros Hl. unfold text_branch, text_search.
  rewrite (limit_results_total _ _ Hl), firstn_nil. reflexivity.
Qed.

Lemma vector_branch_nothing (priority limit : Z) :
  1 <= limit <= 1000 -> vector_branch priority limit [] = Ok [].
Proof.
  intros Hl. unfold vector_branch.
  rewrite (vector_search_total _ _ Hl), firstn_nil. reflexivity.
Qed.

(** A search alone, in the model: the result is its first [limit] hits. *)
Lemma one_search_alone (priority other limit : Z) (hits : list Movie.t) :
  1 <= limit <= 1000 -> 0 <= priority ->
  NoDup (map Movie._id (firstn (Z.to_nat limit) hits)) ->
  exists outv outt,
    pipeline priority other limit hits [] = Ok outv /\
    pipeline other priority limit [] hits = Ok outt /\
    map Fused._id outv = map Movie._id (firstn (Z.to_nat limit) hits) /\
    map Fused._id outt = map Movie._id (firstn (Z.to_nat limit) hits) /\
    (forall n d, nth_error outv n = Some d \/ nth_error outt n = Some d ->
                 (Fused.score d == 1 / inject_Z (Z.of_nat n + priority + 1))%Q) /\
    (hits = [] -> outv = [] /\ outt = []).
Proof.
  intros Hl Hp Hnd.
  pose proof (firstn_le_length (Z.to_nat limit) hits) as Hlen.
  exists (alone vs_score priority 0 (firstn (Z.to_nat limit) hits)),
         (alone ts_score priority 0 (firstn (Z.to_nat limit) hits)).
  split; [|split].
  - unfold pipeline, fused, union_with.
    rewrite (vector_branch_total _ _ _ Hl Hp), (text_branch_nothing _ _ (proj1 Hl)). simpl.
    rewrite app_nil_r, (limit_results_total _ _ (proj1 Hl)).
    now rewrite (pipeline_alone vs_score).
  - unfold pipeline, fused, union_with.
    rewrite (vector_branch_nothing _ _ Hl), (text_branch_total _ _ _ (proj1 Hl) Hp). simpl.
    rewrite (limit_results_total _ _ (proj1 Hl)).
    now rewrite (pipeline_alone ts_score).
  - rewrite !alone_ids. split; [reflexivity|]. split; [reflexivity|].
    split.
    + intros n d [H | H]; now apply alone_nth in H.
    + intros ->. rewrite firstn_nil. split; reflexivity.
Qed.

(** X11.  When one search finds nothing, the result is the other search's
    first [limit] hits in that search's own order (its priority not negative,
    no movie returned twice), the hit at position [n] with the score
    [1 / (n + priority + 1)]; the priority of the empty search plays no part.
    When the other search finds nothing either, the result is empty. *)
Theorem one_search_alone_keeps_its_order (priority other limit : Z) (hits : list Movie.t)
    (outv outt : list Fused.t) :
  0 <= priority ->
  NoDup (map Movie._id (firstn (Z.to_nat limit) hits)) ->
  pipeline priority other limit hits [] = Ok outv ->
  pipeline other priority limit [] hits = Ok outt ->
  map Fused._id outv = map Movie._id (firstn (Z.to_nat limit) hits) /\
  map Fused._id outt = map Movie._id (firstn (Z.to_nat limit) hits) /\
  (forall n d, nth_error outv n = Some d \/ nth_error outt n = Some d ->
               (Fused.score d == 1 / inject_Z (Z.of_nat n + priority + 1))%Q) /\
  (hits = [] -> outv = [] /\ outt = []).
Proof.
  intros Hp Hnd Hv Ht.
  assert (Hl : 1 <= limit <= 1000).
  { destruct (pipeline_Ok _ _ _ _ _ _ Hv) as (f & Hf & _).
    destruct (fused_Ok _ _ _ _ _ _ Hf) as (u & Hu & _).
    now apply union_with_limit in Hu. }
  destruct (one_search_alone priority other limit hits Hl Hp Hnd)
    as (outv' & outt' & Hv' & Ht' & H).
  rewrite Hv in Hv'. rewrite Ht in Ht'. inv_Ok Hv'. inv_Ok Ht'. exact H.
Qed.

Lemma one_search_alone_keeps_its_order_witness :
  let outv := [Fused.mk 3%N None None None (1 # 2);
               Fused.mk 1%N (Some "Alpha"%string) None (Some 1999) (1 # 3)] in
  let outt := [Fused.mk 3%N None None None (1 # 2);
               Fused.mk 1%N (Some "Alpha"%string) None (Some 1999) (1 # 3)] in
  0 <= 1 /\
  NoDup (map Movie._id (firstn (Z.to_nat 2) [Sample.C; Sample.A; Sample.B])) /\
  pipeline 1 (-1) 2 [Sample.C; Sample.A; Sample.B] [] = Ok outv /\
  pipeline (-1) 1 2 [] [Sample.C; Sample.A; Sample.B] = Ok outt /\
  map Fused._id outv = map Movie._id (firstn (Z.to_nat 2) [Sample.C; Sample.A; Sample.B]) /\
  map Fused._id outt = map Movie._id (firstn (Z.to_nat 2) [Sample.C; Sample.A; Sample.B]) /\
  (forall n d, nth_error outv n = Some d \/ nth_error outt n = Some d ->
               (Fused.score d == 1 / inject_Z (Z.of_nat n + 1 + 1))%Q) /\
  ([Sample.C; Sample.A; Sample.B] = [] -> outv = [] /\ outt = []).
Proof.
  intros outv outt.
  assert (Hnd : NoDup (map Movie._id (firstn (Z.to_nat 2) [Sample.C; Sample.A; Sample.B]))).
  { repeat constructor; simpl; intuition discriminate. }
  assert (Hv : pipeline 1 (-1) 2 [Sample.C; Sample.A; Sample.B] [] = Ok outv)
    by reflexivity.
  assert (Ht : pipeline (-1) 1 2 [] [Sample.C; Sample.A; Sample.B] = Ok outt)
    by reflexivity.
  split; [lia|]. split; [exact Hnd|]. split; [exact Hv|]. split; [exact Ht|].
  exact (one_search_alone_keeps_its_order 1 (-1) 2 [Sample.C; Sample.A; Sample.B]
           outv outt ltac:(lia) Hnd Hv Ht).
Defined.

(** ** Items that are ahead in both searches *)

Lemma StronglySorted_nth {A : Type} (R : A -> A -> Prop) (l : list A) :
  StronglySorted R l ->
  forall (i j : nat) (a b : A),
    (i < j)%nat -> nth_error l i = Some a -> nth_error l j = Some b -> R a b.
Proof.
  induction 1 as [|x l Hs IH Hall]; intros i j a b Hij Ha Hb.
  - destruct i; discriminate.
  - destruct j as [|j]; [lia|]. simpl in Hb.
    destruct i as [|i]; simpl in Ha.
    + inv_Ok Ha. rewrite Forall_forall in Hall. apply Hall.
      eapply nth_error_In; eauto.
    + apply (IH i j); auto. lia.
Qed.

(** A group that scores strictly more than a document of the result is in
    the result too, at an earlier position. *)
Lemma better_group_comes_first (vector_priority text_priority limit : Z)
    (neighbours matches : list Movie.t) (f out : list Fused.t) (a b : Fused.t) (j : nat) :
  fused vector_priority text_priority limit neighbours matches = Ok f ->
  pipeline vector_priority text_priority limit neighbours matches = Ok out ->
  In a f -> nth_error out j = Some b ->
  (Fused.score b < Fused.score a)%Q ->
  exists i, (i < j)%nat /\ nth_error out i = Some a.
Proof.
  intros Hf H Ha Hb Hlt. apply pipeline_Ok in H. destruct H as (f' & Hf' & ->).
  rewrite Hf in Hf'. inv_Ok Hf'.
  rewrite nth_error_firstn in Hb.
  destruct (Nat.ltb_spec j (Z.to_nat limit)) as [Hj | Hj]; [|discriminate].
  apply (Permutation_in _ (Permutation_sym (sort_results_Permutation f'))) in Ha.
  apply In_nth_error in Ha. destruct Ha as [i Hi].
  assert (Hij : (i < j)%nat).
  { destruct (Nat.lt_trichotomy i j) as [Hc | [Hc | Hc]]; [exact Hc | |].
    - subst i. rewrite Hi in Hb. inv_Ok Hb. now apply Qlt_irrefl in Hlt.
    - pose proof (StronglySorted_nth _ _ (sort_results_StronglySorted f')
                    j i b a Hc Hb Hi) as Hge.
      unfold score_ge in Hge. exfalso. eapply Qlt_irrefl.
      eapply Qlt_le_trans; eassumption. }
  exists i. split; [exact Hij|]. rewrite nth_error_firstn.
  destruct (Nat.ltb_spec i (Z.to_nat limit)); [exact Hi | lia].
Qed.

Lemma contribution_ahead (priority : Z) (pa pb : option nat) :
  0 <= priority -> ahead pa pb ->
  (contribution priority pb < contribution priority pa)%Q.
Proof.
  intros Hp H. destruct pa as [na|], pb as [nb|]; simpl in *; try contradiction.
  - rewrite !reciprocal_eq by lia. apply reciprocal_strictly_antitone; lia.
  - rewrite reciprocal_eq by lia. apply reciprocal_positive.
Qed.

Lemma contribution_not_behind (priority : Z) (pa pb : option nat) :
  0 <= priority -> ahead pa pb \/ pa = pb ->
  (contribution priority pb <= contribution priority pa)%Q.
Proof.
  intros Hp [H | ->]; [|apply Qle_refl].
  now apply Qlt_le_weak, contribution_ahead.
Qed.

(** The group of a candidate exists, whatever the final limit drops. *)
Lemma candidate_has_a_group (vector_priority text_priority limit : Z)
    (neighbours matches : list Movie.t) (f : list Fused.t) (i : ObjectId) :
  fused vector_priority text_priority limit neighbours matches = Ok f ->
  position i (firstn (Z.to_nat limit) neighbours) <> None \/
  position i (firstn (Z.to_nat limit) matches) <> None ->
  exists a, In a f /\ Fused._id a = i.
Proof.
  intros Hf Hpos.
  assert (Hin : In i (map Fused._id f)).
  { apply (fused_ids _ _ _ _ _ _ _ Hf). rewrite map_app. apply in_or_app.
    destruct Hpos as [H | H]; [left | right];
      destruct (in_dec N.eq_dec i (map Movie._id (firstn (Z.to_nat limit) neighbours)))
        as [Hv | Hv];
      destruct (in_dec N.eq_dec i (map Movie._id (firstn (Z.to_nat limit) matches)))
        as [Ht | Ht]; auto;
      exfalso; apply H; now apply position_None. }
  apply in_map_iff in Hin. destruct Hin as (a & Ha & Hin). now exists a.
Qed.

Lemma fused_score_of_group (vector_priority text_priority limit : Z)
    (neighbours matches : list Movie.t) (f : list Fused.t) (d : Fused.t) :
  NoDup (map Movie._id (firstn (Z.to_nat limit) neighbours)) ->
  NoDup (map Movie._id (firstn (Z.to_nat limit) matches)) ->
  fused vector_priority text_priority limit neighbours matches = Ok f ->
  In d f ->
  Fused.score d =
    (contribution vector_priority
       (position (Fused._id d) (firstn (Z.to_nat limit) neighbours)) +
     contribution text_priority
       (position (Fused._id d) (firstn (Z.to_nat limit) matches)))%Q.
Proof.
  intros Hv Ht Hf Hd. apply fused_Ok in Hf. destruct Hf as (u & Hu & ->).
  apply union_with_Ok in Hu. destruct Hu as [_ ->].
  apply in_map_iff in Hd. destruct Hd as (g & <- & Hg).
  now apply group_score_closed_form.
Qed.

Lemma pipeline_fused (vector_priority text_priority limit : Z)
    (neighbours matches : list Movie.t) (out : list Fused.t) :
  pipeline vector_priority text_priority limit neighbours matches = Ok out ->
  exists f,
    fused vector_priority text_priority limit neighbours matches = Ok f /\
    forall d, In d out -> In d f.
Proof.
  intros H. apply pipeline_Ok in H. destruct H as (f & Hf & ->).
  exists f. split; [exact Hf|]. intros d Hd. apply firstn_In in Hd.
  now apply (Permutation_in _ (sort_results_Permutation f)).
Qed.

(** X12.  Agreement of the two searches is kept.  With priorities that are
    not negative and no movie returned twice by a search: if both searches
    list item [a] among their first [limit] hits, ahead of item [b] (which
    they list further down, or not at all), then wherever [b] is in the
    result, [a] is in the result at an earlier position, with a strictly
    greater score. *)
Theorem ahead_in_both_searches_comes_first (vector_priority text_priority limit : Z)
    (neighbours matches : list Movie.t) (out : list Fused.t)
    (ia : ObjectId) (b : Fused.t) (j : nat) :
  0 <= vector_priority -> 0 <= text_priority ->
  NoDup (map Movie._id (firstn (Z.to_nat limit) neighbours)) ->
  NoDup (map Movie._id (firstn (Z.to_nat limit) matches)) ->
  ahead (position ia (firstn (Z.to_nat limit) neighbours))
        (position (Fused._id b) (firstn (Z.to_nat limit) neighbours)) ->
  ahead (position ia (firstn (Z.to_nat limit) matches))
        (position (Fused._id b) (firstn (Z.to_nat limit) matches)) ->
  pipeline vector_priority text_priority limit neighbours matches = Ok out ->
  nth_error out j = Some b ->
  exists i a,
    (i < j)%nat /\ nth_error out i = Some a /\ Fused._id a = ia /\
    (Fused.score b < Fused.score a)%Q.
Proof.
  intros Hv Ht Hnv Hnt Hav Hat H Hb.
  destruct (pipeline_fused _ _ _ _ _ _ H) as (f & Hf & Hsub).
  destruct (candidate_has_a_group _ _ _ _ _ f ia Hf) as (a & Ha & Hid).
  { left. intros E. rewrite E in Hav. exact Hav. }
  assert (Hlt : (Fused.score b < Fused.score a)%Q).
  { rewrite (fused_score_of_group _ _ _ _ _ f b Hnv Hnt Hf)
      by (apply Hsub; eapply nth_error_In; eauto).
    rewrite (fused_score_of_group _ _ _ _ _ f a Hnv Hnt Hf Ha), Hid.
    apply Qplus_lt_le_compat.
    - now apply contribution_ahead.
    - apply contribution_not_behind; auto. }
  destruct (better_group_comes_first _ _ _ _ _ f out a b j Hf H Ha Hb Hlt) as (i & Hij & Hi).
  now exists i, a.
Qed.

Lemma ahead_in_both_searches_comes_first_witness :
  let out := [Fused.mk 1%N (Some "Alpha"%string) None (Some 1999) (4 # 4);
              Fused.mk 2%N (Some "Beta"%string) (Some "b"%string) None (7 # 12);
              Fused.mk 3%N None None None (1 # 3)] in
  let b := Fused.mk 3%N None None None (1 # 3) in
  0 <= 1 /\ 0 <= 1 /\
  NoDup (map Movie._id (firstn (Z.to_nat 5) [Sample.A; Sample.C; Sample.B])) /\
  NoDup (map Movie._id (firstn (Z.to_nat 5) [Sample.A; Sample.B])) /\
  ahead (position 1%N (firstn (Z.to_nat 5) [Sample.A; Sample.C; Sample.B]))
        (position (Fused._id b) (firstn (Z.to_nat 5) [Sample.A; Sample.C; Sample.B])) /\
  ahead (position 1%N (firstn (Z.to_nat 5) [Sample.A; Sample.B]))
        (position (Fused._id b) (firstn (Z.to_nat 5) [Sample.A; Sample.B])) /\
  pipeline 1 1 5 [Sample.A; Sample.C; Sample.B] [Sample.A; Sample.B] = Ok out /\
  nth_error out 2 = Some b /\
  exists i a,
    (i < 2)%nat /\ nth_error out i = Some a /\ Fused._id a = 1%N /\
    (Fused.score b < Fused.score a)%Q.
Proof.
  intros out b.
  assert (Hnv : NoDup (map Movie._id (firstn (Z.to_nat 5) [Sample.A; Sample.C; Sample.B]))).
  { repeat constructor; simpl; intuition discriminate. }
  assert (Hnt : NoDup (map Movie._id (firstn (Z.to_nat 5) [Sample.A; Sample.B]))).
  { repeat constructor; simpl; intuition discriminate. }
  assert (Hav : ahead (position 1%N (firstn (Z.to_nat 5) [Sample.A; Sample.C; Sample.B]))
                      (position (Fused._id b)
                         (firstn (Z.to_nat 5) [Sample.A; Sample.C; Sample.B]))).
  { simpl. lia. }
  assert (Hat : ahead (position 1%N (firstn (Z.to_nat 5) [Sample.A; Sample.B]))
                      (position (Fused._id b) (firstn (Z.to_nat 5) [Sample.A; Sample.B]))).
  { exact I. }
  assert (H : pipeline 1 1 5 [Sample.A; Sample.C; Sample.B] [Sample.A; Sample.B] = Ok out)
    by reflexivity.
  assert (Hb : nth_error out 2 = Some b) by reflexivity.
  split; [lia|]. split; [lia|]. split; [exact Hnv|]. split; [exact Hnt|].
  split; [exact Hav|]. split; [exact Hat|]. split; [exact H|]. split; [exact Hb|].
  exact (ahead_in_both_searches_comes_first 1 1 5 _ _ out 1%N b 2
           ltac:(lia) ltac:(lia) Hnv Hnt Hav Hat H Hb).
Defined.

Lemma ahead_scores_more (vector_priority text_priority limit : Z)
    (neighbours matches : list Movie.t) (f : list Fused.t) (a b : Fused.t) :
  0 <= vector_priority -> 0 <= text_priority ->
  NoDup (map Movie._id (firstn (Z.to_nat limit) neighbours)) ->
  NoDup (map Movie._id (firstn (Z.to_nat limit) matches)) ->
  fused vector_priority text_priority limit neighbours matches = Ok f ->
  In a f -> In b f ->
  ahead (position (Fused._id a) (firstn (Z.to_nat limit) neighbours))
        (position (Fused._id b) (firstn (Z.to_nat limit) neighbours)) ->
  ahead (position (Fused._id a) (firstn (Z.to_nat limit) matches))
        (position (Fused._id b) (firstn (Z.to_nat limit) matches)) ->
  (Fused.score b < Fused.score a)%Q.
Proof.
  intros Hv Ht Hnv Hnt Hf Ha Hb Hav Hat.
  rewrite (fused_score_of_group _ _ _ _ _ f b Hnv Hnt Hf Hb).
  rewrite (fused_score_of_group _ _ _ _ _ f a Hnv Hnt Hf Ha).
  apply Qplus_lt_le_compat.
  - now apply contribution_ahead.
  - apply contribution_not_behind; auto.
Qed.

Lemma position_head (m : Movie.t) (l : list Movie.t) (i : ObjectId) :
  i <> Movie._id m -> ahead (position (Movie._id m) (m :: l)) (position i (m :: l)).
Proof.
  intros Hi. simpl. rewrite N.eqb_refl.
  destruct (N.eqb_spec (Movie._id m) i) as [E | E]; [congruence|].
  destruct (position i l); simpl; [lia | exact I].
Qed.

(** X13.  With priorities that are not negative and no movie returned twice
    by a search, a movie that is the first hit of both searches is the first
    document of the result, with the greatest score there is:
    [1 / (vector_priority + 1) + 1 / (text_priority + 1)]. *)
Theorem top_of_both_searches_is_first (vector_priority text_priority limit : Z)
    (m m' : Movie.t) (neighbours matches : list Movie.t) (out : list Fused.t) :
  0 <= vector_priority -> 0 <= text_priority ->
  NoDup (map Movie._id (firstn (Z.to_nat limit) (m :: neighbours))) ->
  NoDup (map Movie._id (firstn (Z.to_nat limit) (m' :: matches))) ->
  Movie._id m' = Movie._id m ->
  pipeline vector_priority text_priority limit (m :: neighbours) (m' :: matches) = Ok out ->
  exists d rest,
    out = d :: rest /\
    Fused._id d = Movie._id m /\
    Fused.score d =
      (1 / inject_Z (vector_priority + 1) + 1 / inject_Z (text_priority + 1))%Q.
Proof.
  intros Hv Ht Hnv Hnt Hid H.
  destruct (pipeline_fused _ _ _ _ _ _ H) as (f & Hf & Hsub).
  assert (Hl : 1 <= limit).
  { destruct (fused_Ok _ _ _ _ _ _ Hf) as (u & Hu & _). now apply union_with_Ok in Hu. }
  destruct (Z.to_nat limit) as [|k] eqn:Ek; [lia|].
  assert (Ek' : Z.to_nat limit = S k) by exact Ek.
  simpl in Hnv, Hnt.
  assert (Hpv : firstn (Z.to_nat limit) (m :: neighbours) = m :: firstn k neighbours)
    by now rewrite Ek'.
  assert (Hpt : firstn (Z.to_nat limit) (m' :: matches) = m' :: firstn k matches)
    by now rewrite Ek'.
  destruct (candidate_has_a_group _ _ _ _ _ f (Movie._id m) Hf) as (a & Ha & Hida).
  { left. rewrite Hpv. simpl. now rewrite N.eqb_refl. }
  pose proof H as H0. apply pipeline_Ok in H0. destruct H0 as (f' & Hf' & Hout).
  rewrite Hf in Hf'. inv_Ok Hf'.
  destruct (sort_results f') as [|x s] eqn:Es.
  { exfalso. apply (Permutation_in _ (Permutation_sym (sort_results_Permutation f'))) in Ha.
    now rewrite Es in Ha. }
  rewrite Ek'. simpl. exists x, (firstn k s). split; [reflexivity|].
  assert (Hx : In x f').
  { apply (Permutation_in _ (sort_results_Permutation f')). rewrite Es. now left. }
  assert (Hidx : Fused._id x = Movie._id m).
  { destruct (N.eq_dec (Fused._id x) (Movie._id m)) as [E | E]; [exact E|]. exfalso.
    assert (Hlt : (Fused.score x < Fused.score a)%Q).
    { apply (ahead_scores_more vector_priority text_priority limit (m :: neighbours)
               (m' :: matches) f' a x); auto.
      - rewrite Ek'. simpl. exact Hnv.
      - rewrite Ek'. simpl. exact Hnt.
      - rewrite Hpv, Hida. now apply position_head.
      - rewrite Hpt, Hida, <- Hid. apply position_head. now rewrite Hid. }
    pose proof (sort_results_StronglySorted f') as Hs. rewrite Es in Hs.
    inversion Hs as [|? ? _ Hall]; subst.
    apply (Permutation_in _ (Permutation_sym (sort_results_Permutation f'))) in Ha.
    rewrite Es in Ha. destruct Ha as [-> | Ha]; [now apply Qlt_irrefl in Hlt|].
    rewrite Forall_forall in Hall. apply Hall in Ha. unfold score_ge in Ha.
    eapply Qlt_irrefl. eapply Qlt_le_trans; eassumption. }
  split; [exact Hidx|].
  rewrite (fused_score_of_group vector_priority text_priority limit (m :: neighbours)
             (m' :: matches) f' x) by (auto; rewrite Ek'; simpl; assumption).
  rewrite Hpv, Hpt, Hidx. simpl. rewrite N.eqb_refl.
  rewrite <- Hid, N.eqb_refl. reflexivity.
Qed.

Lemma top_of_both_searches_is_first_witness :
  0 <= 1 /\ 0 <= 3 /\
  NoDup (map Movie._id (firstn (Z.to_nat 2) (Sample.B :: [Sample.A; Sample.C]))) /\
  NoDup (map Movie._id (firstn (Z.to_nat 2) (Sample.B :: [Sample.C]))) /\
  Movie._id Sample.B = Movie._id Sample.B /\
  pipeline 1 3 2 (Sample.B :: [Sample.A; Sample.C]) (Sample.B :: [Sample.C]) =
    Ok [Fused.mk 2%N (Some "Beta"%string) (Some "b"%string) None (6 # 8);
        Fused.mk 1%N (Some "Alpha"%string) None (Some 1999) (1 # 3)] /\
  exists d rest,
    [Fused.mk 2%N (Some "Beta"%string) (Some "b"%string) None (6 # 8);
     Fused.mk 1%N (Some "Alpha"%string) None (Some 1999) (1 # 3)] = d :: rest /\
    Fused._id d = Movie._id Sample.B /\
    Fused.score d = (1 / inject_Z (1 + 1) + 1 / inject_Z (3 + 1))%Q.
Proof.
  assert (Hnv : NoDup (map Movie._id
                         (firstn (Z.to_nat 2) (Sample.B :: [Sample.A; Sample.C])))).
  { repeat constructor; simpl; intuition discriminate. }
  assert (Hnt : NoDup (map Movie._id (firstn (Z.to_nat 2) (Sample.B :: [Sample.C])))).
  { repeat constructor; simpl; intuition discriminate. }
  assert (H : pipeline 1 3 2 (Sample.B :: [Sample.A; Sample.C]) (Sample.B :: [Sample.C]) =
              Ok [Fused.mk 2%N (Some "Beta"%string) (Some "b"%string) None (6 # 8);
                  Fused.mk 1%N (Some "Alpha"%string) None (Some 1999) (1 # 3)])
    by reflexivity.
  split; [lia|]. split; [lia|]. split; [exact Hnv|]. split; [exact Hnt|].
  split; [reflexivity|]. split; [exact H|].
  exact (top_of_both_searches_is_first 1 3 2 Sample.B Sample.B _ _ _
           ltac:(lia) ltac:(lia) Hnv Hnt eq_refl H).
Defined.

(** ** The documents of a branch *)

Lemma hits_from_nth_inv (name : score_field_name) (priority : Z) (found : list Movie.t)
    (k : Z) (n : nat) (h : Hit.t) :
  nth_error (hits_from name priority k found) n = Some h ->
  exists m, nth_error found n = Some m /\ h = hit_of name priority (k + Z.of_nat n) m.
Proof.
  intros H. destruct (nth_error found n) as [m|] eqn:Em.
  - rewrite (hits_from_nth _ _ _ _ _ _ Em) in H. inv_Ok H. now exists m.
  - exfalso. apply nth_error_None in Em.
    assert (Hlen : (n < List.length (hits_from name priority k found))%nat).
    { apply nth_error_Some. congruence. }
    rewrite hits_from_length in Hlen. lia.
Qed.

Lemma nth_error_firstn_Some {A : Type} (k n : nat) (l : list A) (a : A) :
  nth_error (firstn k l) n = Some a -> (n < k)%nat /\ nth_error l n = Some a.
Proof.
  rewrite nth_error_firstn. destruct (Nat.ltb_spec n k); [tauto | discriminate].
Qed.

Lemma branch_document (name : score_field_name) (priority limit : Z)
    (hits : list Movie.t) (n : nat) (h : Hit.t) :
  nth_error (hits_from name priority 0 (firstn (Z.to_nat limit) hits)) n = Some h ->
  exists m,
    nth_error hits n = Some m /\ (n < Z.to_nat limit)%nat /\ shows h m /\
    score_of name h = Some (1 / inject_Z (Z.of_nat n + priority + 1))%Q.
Proof.
  intros H. apply hits_from_nth_inv in H. destruct H as (m & Hm & ->).
  apply nth_error_firstn_Some in Hm. destruct Hm as [Hn Hm].
  exists m. split; [exact Hm|]. split; [exact Hn|].
  split; [unfold shows, hit_of; simpl; tauto|].
  rewrite score_of_hit_of. reflexivity.
Qed.

(** X14.  What a branch emits: its [n]-th document shows the [n]-th hit of its
    search ([n] below [limit]), carries the score [1 / (n + priority + 1)]
    under the branch's own field, and does not have the other branch's
    field. *)
Theorem branches_emit_scored_hits (vector_priority text_priority limit : Z)
    (neighbours matches : list Movie.t) (v t : list Hit.t) :
  vector_branch vector_priority limit neighbours = Ok v ->
  text_branch text_priority limit matches = Ok t ->
  (forall n h, nth_error v n = Some h ->
     exists m,
       nth_error neighbours n = Some m /\ Z.of_nat n < limit /\ shows h m /\
       Hit.vs_score h = Some (1 / inject_Z (Z.of_nat n + vector_priority + 1))%Q /\
       Hit.ts_score h = None) /\
  (forall n h, nth_error t n = Some h ->
     exists m,
       nth_error matches n = Some m /\ Z.of_nat n < limit /\ shows h m /\
       Hit.ts_score h = Some (1 / inject_Z (Z.of_nat n + text_priority + 1))%Q /\
       Hit.vs_score h = None).
Proof.
  intros Hv Ht.
  apply vector_branch_Ok in Hv. apply text_branch_Ok in Ht.
  destruct Hv as [Hl ->], Ht as [_ ->]. split; intros n h H.
  - pose proof (nth_error_In _ _ H) as Hin. apply hits_from_vs in Hin.
    destruct (branch_document vs_score _ _ _ _ _ H) as (m & Hm & Hn & Hs & Hq).
    exists m. split; [exact Hm|]. split; [lia|]. split; [exact Hs|].
    split; [exact Hq | tauto].
  - pose proof (nth_error_In _ _ H) as Hin. apply hits_from_ts in Hin.
    destruct (branch_document ts_score _ _ _ _ _ H) as (m & Hm & Hn & Hs & Hq).
    exists m. split; [exact Hm|]. split; [lia|]. split; [exact Hs|].
    split; [exact Hq | tauto].
Qed.

Lemma branches_emit_scored_hits_witness :
  let v := [Hit.mk 2%N (Some (1 # 2)) None (Some "Beta"%string) (Some "b"%string) None] in
  let t := [Hit.mk 1%N None (Some (1 # 2)) (Some "Alpha"%string) None (Some 1999)] in
  vector_branch 1 1 [Sample.B; Sample.A; Sample.C] = Ok v /\
  text_branch 1 1 [Sample.A; Sample.B] = Ok t /\
  (forall n h, nth_error v n = Some h ->
     exists m,
       nth_error [Sample.B; Sample.A; Sample.C] n = Some m /\ Z.of_nat n < 1 /\ shows h m /\
       Hit.vs_score h = Some (1 / inject_Z (Z.of_nat n + 1 + 1))%Q /\
       Hit.ts_score h = None) /\
  (forall n h, nth_error t n = Some h ->
     exists m,
       nth_error [Sample.A; Sample.B] n = Some m /\ Z.of_nat n < 1 /\ shows h m /\
       Hit.ts_score h = Some (1 / inject_Z (Z.of_nat n + 1 + 1))%Q /\
       Hit.vs_score h = None).
Proof.
  intros v t.
  assert (Hv : vector_branch 1 1 [Sample.B; Sample.A; Sample.C] = Ok v) by reflexivity.
  assert (Ht : text_branch 1 1 [Sample.A; Sample.B] = Ok t) by reflexivity.
  split; [exact Hv|]. split; [exact Ht|].
  exact (branches_emit_scored_hits 1 1 1 _ _ v t Hv Ht).
Defined.
